(** * jenjoy: doc-comment generation pipeline

    A shallow embedding of [jenjoy.py]: the Python string primitives the
    script relies on, its five regular expressions, the functions
    [extract_doc_comment], [insert_doc_comment], [count_tokens],
    [get_method_nodes], [write_code_snippet_to_file] and the driver [main],
    followed by the properties established about them. *)

From Stdlib Require Import String Ascii.
From Stdlib Require Import List NArith ZArith Bool Lia.
Import ListNotations.


(** ** Python [str] values

    A Python 3 [str] is a sequence of Unicode code points.  Code points are
    numbers ([N]); a string is a list of them. *)

Module Py.

Definition char := N.
Definition str := list char.

(** ASCII literals. *)
Definition lit (s : string) : str :=
  map N_of_ascii (list_ascii_of_string s).

Definition LF : char := 10%N.
Definition CR : char := 13%N.
Definition TAB : char := 9%N.
Definition SP : char := 32%N.

Definition mem (c : char) (l : list char) : bool := existsb (N.eqb c) l.

(** Line boundaries of [str.splitlines]: LF, VT, FF, CR, FS, GS, RS, NEL,
    LINE SEPARATOR and PARAGRAPH SEPARATOR. *)
Definition is_linebreak (c : char) : bool :=
  mem c [10; 11; 12; 13; 28; 29; 30; 133; 8232; 8233]%N.

(** White space of [str.strip], [str.isspace] and of [\s] in a [str]
    pattern. *)
Definition isspace (c : char) : bool :=
  ((9 <=? c) && (c <=? 13))%N || ((28 <=? c) && (c <=? 32))%N
  || mem c [133; 160; 5760; 8232; 8233; 8239; 8287; 12288]%N
  || ((8192 <=? c) && (c <=? 8202))%N.

Fixpoint str_eqb (a b : str) : bool :=
  match a, b with
  | [], [] => true
  | x :: a', y :: b' => N.eqb x y && str_eqb a' b'
  | _, _ => false
  end.

(** [s.startswith(p)] *)
Fixpoint startswith (s p : str) {struct p} : bool :=
  match p, s with
  | [], _ => true
  | x :: p', y :: s' => N.eqb x y && startswith s' p'
  | _ :: _, [] => false
  end.

(** [sep.join(parts)] *)
Fixpoint join (sep : str) (parts : list str) : str :=
  match parts with
  | [] => []
  | [p] => p
  | p :: rest => p ++ sep ++ join sep rest
  end.

(** [s.splitlines()]: [cur] holds the current line reversed.  A line is
    emitted at every boundary, CR LF counts as one boundary, and what follows
    the last boundary is a line only when it is not empty. *)
Fixpoint splitlines_from (cur : str) (s : str) : list str :=
  match s with
  | [] => match cur with [] => [] | _ => [rev cur] end
  | c :: s' =>
      if is_linebreak c then
        rev cur ::
          (if N.eqb c CR then
             match s' with
             | d :: s'' => if N.eqb d LF then splitlines_from [] s''
                           else splitlines_from [] s'
             | [] => splitlines_from [] s'
             end
           else splitlines_from [] s')
      else splitlines_from (c :: cur) s'
  end.

Definition splitlines (s : str) : list str := splitlines_from [] s.

(** [s.lstrip()], [s.rstrip()], [s.strip()] *)
Fixpoint lstrip (s : str) : str :=
  match s with
  | c :: s' => if isspace c then lstrip s' else s
  | [] => []
  end.

Definition rstrip (s : str) : str := rev (lstrip (rev s)).
Definition strip (s : str) : str := rstrip (lstrip s).

(** Truth value of a string: non-empty. *)
Definition truthy (s : str) : bool :=
  match s with [] => false | _ => true end.

(** Index normalisation of slices and of the [start] argument of
    [str.find]: a negative index counts from the end, and the result is
    clamped to [0, len]. *)
Definition clamp (len i : Z) : Z :=
  if (i <? 0)%Z then Z.max 0 (i + len) else Z.min i len.

(** [s[lo:hi]] *)
Definition slice (s : str) (lo hi : Z) : str :=
  let n := Z.of_nat (length s) in
  let a := clamp n lo in
  let b := clamp n hi in
  firstn (Z.to_nat (b - a)) (skipn (Z.to_nat a) s).

(** [s[:hi]] and [s[lo:]] *)
Definition slice_to (s : str) (hi : Z) : str := slice s 0 hi.

(** First index at or after [idx] (the position of the head of [s]) where
    [sub] occurs. *)
Fixpoint find_go (sub : str) (idx : nat) (s : str) : option nat :=
  if startswith s sub then Some idx
  else match s with
       | [] => None
       | _ :: s' => find_go sub (S idx) s'
       end.

(** [s.find(sub, start)]; [-1] when there is no occurrence. *)
Definition find (s sub : str) (start : Z) : Z :=
  let n := Z.of_nat (length s) in
  if (n <? start)%Z then (-1)%Z
  else
    let a := Z.to_nat (clamp n start) in
    match find_go sub a (skipn a s) with
    | Some i => Z.of_nat i
    | None => (-1)%Z
    end.

(** Last index where [sub] occurs. *)
Fixpoint rfind_go (sub : str) (idx : nat) (s : str) : option nat :=
  match s with
  | [] => if startswith s sub then Some idx else None
  | _ :: s' =>
      match rfind_go sub (S idx) s' with
      | Some j => Some j
      | None => if startswith s sub then Some idx else None
      end
  end.

(** [s.rfind(sub)] *)
Definition rfind (s sub : str) : Z :=
  match rfind_go sub 0 s with
  | Some i => Z.of_nat i
  | None => (-1)%Z
  end.

(** [s.replace(old, new, count)] for an empty [old]: [new] goes before every
    character and at the end, [count] times at most. *)
Fixpoint replace_empty (new : str) (count : Z) (s : str) : str :=
  if (count =? 0)%Z then s
  else match s with
       | [] => new
       | c :: s' => new ++ c :: replace_empty new (count - 1) s'
       end.

(** [s.replace(old, new, count)] for a non-empty [old]: the occurrences are
    taken from left to right without overlap; [skip] counts the characters of
    a replaced occurrence still to be dropped.  A negative [count] never
    reaches zero: every occurrence is replaced. *)
Fixpoint replace_go (old new : str) (count : Z) (skip : nat) (s : str) : str :=
  match s with
  | [] => []
  | c :: s' =>
      match skip with
      | S k => replace_go old new count k s'
      | O =>
          if (count =? 0)%Z then s
          else if startswith s old
               then new ++ replace_go old new (count - 1) (length old - 1) s'
               else c :: replace_go old new count 0 s'
      end
  end.

(** [s.replace(old, new, count)]; [count = -1] is [s.replace(old, new)]. *)
Definition replace (s old new : str) (count : Z) : str :=
  match old with
  | [] => replace_empty new count s
  | _ :: _ => replace_go old new count 0 s
  end.

(** What [f.read()] makes of the stored text of a file opened with
    [open(path, "r")], no [newline] argument given: CR LF and a CR alone are
    read as LF. *)
Fixpoint universal_newlines (raw : str) : str :=
  match raw with
  | [] => []
  | c :: rest =>
      if N.eqb c CR then
        LF :: match rest with
              | d :: rest' => if N.eqb d LF then universal_newlines rest'
                              else universal_newlines rest
              | [] => universal_newlines rest
              end
      else c :: universal_newlines rest
  end.


End Py.

(** ** The regular expressions of the script *)

Module Re.
Import Py.

(** [$] without [re.MULTILINE]: at the end of the subject, or just before a
    line feed that ends it. *)
Definition at_dollar (rest : str) : bool :=
  match rest with
  | [] => true
  | [c] => N.eqb c LF
  | _ => false
  end.

Definition is_hws (c : char) : bool := N.eqb c SP || N.eqb c TAB.

(** [[ \t]*$] tried at the head of [rest]: the star takes a blank and the
    rest must match, or it stops here and [$] must hold. *)
Fixpoint match_hws_eol (rest : str) : bool :=
  match rest with
  | c :: rest' => (is_hws c && match_hws_eol rest') || at_dollar rest
  | [] => true
  end.

Fixpoint search_hws_eol_go (idx : nat) (s : str) : option nat :=
  if match_hws_eol s then Some idx
  else match s with
       | [] => None
       | _ :: s' => search_hws_eol_go (S idx) s'
       end.

(** [re.search(r"[ \t]*$", s)]: the start of the leftmost match, [None] when
    there is no match. *)
Definition search_hws_eol (s : str) : option Z :=
  option_map Z.of_nat (search_hws_eol_go 0 s).

(** [re.match(r"\s*", line).group(0)]: the longest white-space prefix. *)
Fixpoint match_ws_prefix (line : str) : str :=
  match line with
  | c :: line' => if isspace c then c :: match_ws_prefix line' else []
  | [] => []
  end.

(** [.*\*/] at the head of [rest]: a closing marker further on, with no line
    feed before it ([.] matches every character but LF). *)
Fixpoint match_dots_close (rest : str) : bool :=
  startswith rest (lit "*/")
  || match rest with
     | c :: rest' => negb (N.eqb c LF) && match_dots_close rest'
     | [] => false
     end.

(** [re.search(r"/\*\*.*\*/", line)] as a truth value. *)
Fixpoint search_doc_block (line : str) : bool :=
  match line with
  | [] => false
  | _ :: line' =>
      (startswith line (lit "/**") && match_dots_close (skipn 3 line))
      || search_doc_block line'
  end.

(** [re.sub(r"\[h_newline\]", "\n", s)]: the pattern is a literal, every
    occurrence from left to right is replaced. *)
Definition sub_h_newline (s : str) : str :=
  replace s (lit "[h_newline]") [LF] (-1).

End Re.

(** ** [jenjoy.py] *)

Module Jenjoy.
Import Py Re.

(** [extract_doc_comment(text)] *)
Definition extract_doc_comment (text : str) : str :=
  let start := rfind text (lit "/**") in
  let start :=
    if negb (start =? -1)%Z then
      match search_hws_eol (slice_to text start) with
      | Some m => m
      | None => start
      end
    else start in
  let end_ := find text (lit "*/") start in
  if negb (start =? -1)%Z && negb (end_ =? -1)%Z
  then slice text start (end_ + 2)
  else text.

(** [insert_doc_comment]: the index of the first line with something other
    than white space on it, and that line's indentation; the [else] branch of
    the loop is the [None] case. *)
Fixpoint first_code_line (idx : nat) (lines : list str) : option (nat * str) :=
  match lines with
  | [] => None
  | line :: rest =>
      if truthy (strip line) then Some (idx, match_ws_prefix line)
      else first_code_line (S idx) rest
  end.

Definition indent_line (indent l : str) : str :=
  if truthy (strip l) then indent ++ l else l.

(** [insert_doc_comment(java_code, doc_comment)] *)
Definition insert_doc_comment (java_code doc_comment : str) : str :=
  let lines := splitlines java_code in
  let '(idx, indent) :=
    match first_code_line 0 lines with
    | Some found => found
    | None => (0, [])
    end in
  let doc_comment_indented :=
    join [LF] (map (indent_line indent) (splitlines doc_comment)) in
  join [LF] (firstn idx lines)
  ++ (if 0 <? idx then [LF] else [])
  ++ doc_comment_indented ++ [LF] ++ join [LF] (skipn idx lines).

(** A declaration found by the scan:
    [(start_byte, end_byte, method_source, has_doc_comment)]. *)
Record decl : Type := Decl {
  start_byte : nat;
  end_byte : nat;
  method_source : str;
  has_doc : bool
}.

(** A node of the syntax tree, as far as the script reads it: [type],
    [start_byte], [end_byte], [start_point] (row, column) and [children]. *)
#[warnings="-register-all"]
Inductive node : Type :=
| Node (type : str) (nstart nend : nat) (start_point : nat * nat)
       (children : list node).

Definition node_type (n : node) : str := let 'Node t _ _ _ _ := n in t.
Definition node_start_byte (n : node) : nat := let 'Node _ a _ _ _ := n in a.
Definition node_end_byte (n : node) : nat := let 'Node _ _ b _ _ := n in b.
Definition node_start_point (n : node) : nat * nat :=
  let 'Node _ _ _ p _ := n in p.
Definition node_children (n : node) : list node :=
  let 'Node _ _ _ _ c := n in c.

Definition is_documentable (type : str) : bool :=
  str_eqb type (lit "method_declaration")
  || str_eqb type (lit "class_declaration")
  || str_eqb type (lit "constructor_declaration").

(** [range(a, b, -1)] *)
Definition range_down (a b : Z) : list Z :=
  map (fun k => (a - Z.of_nat k)%Z) (seq 0 (Z.to_nat (a - b))).

(** The body of the look-back loop of [visit] over the indices still to be
    visited; [None] is the [IndexError] of [lines[i]]. *)
Fixpoint look_back (lines : list str) (idxs : list Z) : option bool :=
  match idxs with
  | [] => Some false
  | i :: rest =>
      if (i <? 0)%Z then Some false
      else
        match nth_error lines (Z.to_nat i) with
        | None => None
        | Some line =>
            if search_doc_block line then Some true
            else if str_eqb (strip line) [] then look_back lines rest
            else if negb (startswith (strip line) (lit "*"))
                    && negb (startswith (strip line) (lit "//"))
                 then Some false
                 else look_back lines rest
        end
  end.

(** The value of [has_doc] computed for a node starting on [start_line]. *)
Definition detect_doc (source_code : str) (start_line : nat) : option bool :=
  let lines := splitlines source_code in
  let sl := Z.of_nat start_line in
  look_back lines (range_down (sl - 1) (Z.max (-1) (sl - 6))).

(** [get_node_text(node)] *)
Definition get_node_text (source_code : str) (n : node) : str :=
  slice source_code (Z.of_nat (node_start_byte n)) (Z.of_nat (node_end_byte n)).

(** [for child in node.children: visit(child)] *)
Fixpoint visit_each (visit : node -> option (list decl))
    (children : list node) : option (list decl) :=
  match children with
  | [] => Some []
  | child :: rest =>
      match visit child with
      | None => None
      | Some found =>
          match visit_each visit rest with
          | None => None
          | Some others => Some (found ++ others)
          end
      end
  end.

(** The Python interpreter as far as the scan depends on it: the number of
    frames its recursion limit still allows when [visit(root)] is called, and
    the number of frames a call of [re.search] takes. *)
Record interpreter : Type := Interpreter {
  frames_left : nat;
  search_frames : nat
}.

(** [visit(node)] with [frames] frames left, [spare] of them once the call
    has its own: the records appended to [result] for [n] and its
    descendants, in order; [None] when an exception escapes, which is the
    [IndexError] of the look-back or the [RecursionError] of a call for which
    no frame is left: the call of [visit] itself, that of [re.search] on the
    first line the look-back reads, or that of [get_node_text]. *)
Fixpoint visit (py : interpreter) (frames : nat) (source_code : str)
    (n : node) : option (list decl) :=
  match frames with
  | 0 => None
  | S spare =>
      let 'Node type a b (row, _) children := n in
      let here :=
        if is_documentable type then
          if (0 <? row) && (spare <? search_frames py) then None
          else
            match detect_doc source_code row with
            | Some hd =>
                if spare =? 0 then None
                else Some [Decl a b (get_node_text source_code n) hd]
            | None => None
            end
        else Some [] in
      match here with
      | None => None
      | Some own =>
          match visit_each (visit py spare source_code) children with
          | None => None
          | Some below => Some (own ++ below)
          end
      end
  end.

(** [get_method_nodes(source_code)], given the tree the parser built. *)
Definition get_method_nodes (py : interpreter) (source_code : str)
    (root : node) : option (list decl) :=
  visit py (frames_left py) source_code root.

(** The file system as text-mode reads and writes see it: the text of each
    regular file. *)
Definition filesystem := str -> option str.



(** The dictionary [generated_doc_comments]: keys in insertion order, a
    key set again keeps its place and takes the new value. *)
Definition dict := list (str * str).

Fixpoint dict_set (d : dict) (k v : str) : dict :=
  match d with
  | [] => [(k, v)]
  | (k', v') :: d' =>
      if str_eqb k' k then (k', v) :: d' else (k', v') :: dict_set d' k v
  end.

(** Lines 205-213 of [main]: one response line. *)
Definition clean_line (line : str) : str :=
  let content := replace line (lit "data: ") [] 1 in
  sub_h_newline content.

(** The loop over the response lines, then the join. *)
Definition reassemble_lines (lines : list str) : str :=
  let comment_parts :=
    fold_left (fun parts line => parts ++ [clean_line line]) lines [] in
  join [] comment_parts.

Definition reassemble (llm_output : str) : str :=
  reassemble_lines (splitlines llm_output).

(** What a call of [call_deepseek] does: return the body of the response,
    leave through [sys.exit(1)] after a failed request, or be interrupted by
    the user. *)
Inductive reply : Type :=
| Reply (text : str)
| Failed
| Interrupted.

(** What the run does to the outside. *)
Inductive event : Type :=
| Request (d : decl)
| Stop
| Write (path content : str)
| Format (path : str).

Inductive ending : Type :=
| Finished
| SysExit (code : Z)
| Raised.

Definition exit_status (e : ending) : Z :=
  match e with
  | Finished => 0
  | SysExit code => code
  | Raised => 1
  end.

Record run : Type := Run {
  trace : list event;
  outcome : ending
}.

(** A regular file as it is stored: its bytes decoded as UTF-8, or a file
    that [open] or [read] raises on (no permission, bytes that are not
    UTF-8). *)
Inductive stored : Type :=
| Unreadable
| Stored (raw : str).

(** The surroundings of a run: the regular files, the line separator of the
    host ([os.linesep]), the paths that can be opened for writing, the
    interpreter, the answer of the service to its [k]-th request, and whether
    the user interrupts at the top of the [k]-th iteration of the loop. *)
Record world : Type := World {
  disk : str -> option stored;
  linesep : str;
  writable : str -> bool;
  python : interpreter;
  service : nat -> str -> reply;
  sigint : nat -> bool
}.

(** The text [f.read()] returns for each file that can be read. *)
Definition files (w : world) : filesystem :=
  fun p =>
    match disk w p with
    | Some (Stored raw) => Some (universal_newlines raw)
    | _ => None
    end.


Record arguments : Type := Arguments_ {
  file : str;
  output : option str;
  api_key : str
}.

Inductive loop_end : Type :=
| Completed (generated_doc_comments : dict)
| ServiceFailure
| Cancelled.

Section Pipeline.

(** [str.isalnum] of the Python runtime, and the parser of the grammar
    library. *)
Variable isalnum : char -> bool.
Variable parse : str -> node.

(** [\w] in a [str] pattern *)
Definition is_word (c : char) : bool := isalnum c || N.eqb c 95.

(** [re.findall(r"\w+|[^\w\s]", text)] counted: [in_word] tells that the
    previous character belongs to a run of word characters already counted. *)
Fixpoint count_tokens_go (in_word : bool) (text : str) : nat :=
  match text with
  | [] => 0
  | c :: text' =>
      if is_word c then
        (if in_word then 0 else 1) + count_tokens_go true text'
      else if isspace c then count_tokens_go false text'
      else 1 + count_tokens_go false text'
  end.

(** [count_tokens(text)] *)
Definition count_tokens (text : str) : nat := count_tokens_go false text.

(** The [for] loop of [main] from its [k]-th iteration on, [calls] requests
    having been made. *)
Fixpoint generate (w : world) (k calls : nat) (generated : dict)
    (method_nodes : list decl) : list event * loop_end :=
  match method_nodes with
  | [] => ([], Completed generated)
  | d :: rest =>
      if sigint w k then ([], Cancelled)
      else if has_doc d then generate w (S k) calls generated rest
      else if 2048 <? count_tokens (method_source d)
      then generate w (S k) calls generated rest
      else
        match service w calls (method_source d) with
        | Reply llm_output =>
            let code := reassemble llm_output in
            let doc_comment := extract_doc_comment code in
            let merged_code := insert_doc_comment (method_source d) doc_comment in
            let '(evs, e) :=
              generate w (S k) (S calls)
                       (dict_set generated (method_source d) merged_code) rest in
            (Request d :: evs, e)
        | Failed => ([Request d], ServiceFailure)
        | Interrupted => ([Request d], Cancelled)
        end
  end.

(** The write-back loop of [main]. *)
Definition write_back (java_code : str) (generated : dict) : str :=
  fold_left (fun file_content '(original_code, merged_code) =>
               replace file_content original_code merged_code (-1))
            generated java_code.

Definition output_file (args : arguments) : str :=
  match output args with
  | Some o => if truthy o then o else file args
  | None => file args
  end.

(** [main()].  A [Write] event carries the text handed to [f.write]; the
    run ends in [Raised] when the input file cannot be read, when the scan
    raises, or when the output file cannot be opened for writing. *)
Definition main (args : arguments) (w : world) : run :=
  match disk w (file args) with
  | None => Run [] (SysExit 1)
  | Some Unreadable => Run [] Raised
  | Some (Stored raw) =>
      let java_code := universal_newlines raw in
      match get_method_nodes (python w) java_code (parse java_code) with
      | None => Run [] Raised
      | Some method_nodes =>
          match generate w 0 0 [] method_nodes with
          | (evs, Cancelled) => Run (evs ++ [Stop]) (SysExit 1)
          | (evs, ServiceFailure) => Run evs (SysExit 1)
          | (evs, Completed generated) =>
              let file_content := write_back java_code generated in
              if writable w (output_file args)
              then Run (evs ++ [Write (output_file args) file_content;
                                Format (output_file args)]) Finished
              else Run evs Raised
          end
      end
  end.

End Pipeline.

End Jenjoy.

(** ** The calls to the generation service *)

Module Service.
Import Py Jenjoy.

Definition DEEPSEEK_API_URL : str :=
  lit "http://172.18.36.55:5001/api/v1/chat/completions".

(** The [prompt] of [call_deepseek]: a first line, the declaration on lines
    of its own, and the instructions. *)
Definition prompt_head : str :=
  lit "Add a detailed doc comment to the following java method or class:".

Definition prompt_tail : str :=
  lit "The doc comment should describe what the method or class does. "
  ++ lit "Only output the doc comment for the following java code, wrapped with /** ... */. "
  ++ lit "Do not output the method code or any explanation." ++ [LF]
  ++ lit "Don't include any explanations in your response.".

Definition prompt (java_code : str) : str :=
  prompt_head ++ [LF] ++ java_code ++ [LF] ++ prompt_tail.

Record message : Type := Message { role : str; content : str }.

(** The JSON body; the temperature is kept as the literal written in the
    script. *)
Record payload : Type := Payload {
  model : str;
  messages : list message;
  temperature : str;
  stream : bool
}.

Record request : Type := Request_ {
  url : str;
  json : option payload;
  headers : list (str * str);
  timeout : Z
}.

Definition auth_headers (api_key : str) : list (str * str) :=
  [ (lit "Authorization", lit "Bearer " ++ api_key);
    (lit "Content-Type", lit "application/json");
    (lit "Accept", lit "application/json") ].

(** The request [call_deepseek] posts. *)
Definition deepseek_request (api_key java_code : str) : request :=
  Request_ DEEPSEEK_API_URL
           (Some (Payload (lit "deepseek-r1-standard")
                          [Message (lit "user") (prompt java_code)]
                          (lit "0.8") false))
           (auth_headers api_key) 120.

(** The request [send_stop_request] posts. *)
Definition stop_request (api_key : str) : request :=
  Request_ (lit "http://172.18.36.55:5001/api/v1/stop") None
           (auth_headers api_key) 10.

(** What [requests.post] does: answer with a status and a body, raise an
    exception of the library, or be interrupted by the user. *)
Inductive post_result : Type :=
| Response (status_code : Z) (text : str)
| PostRaised
| PostInterrupted.

(** [resp.raise_for_status()] raises for the client and server error
    statuses. *)
Definition raises_for_status (status_code : Z) : bool :=
  ((400 <=? status_code) && (status_code <? 600))%Z.

(** [call_deepseek(api_key, java_code)] over a transport [post]. *)
Definition call_deepseek (post : request -> post_result)
    (api_key java_code : str) : reply :=
  match post (deepseek_request api_key java_code) with
  | Response status_code text =>
      if raises_for_status status_code then Failed else Reply text
  | PostRaised => Failed
  | PostInterrupted => Interrupted
  end.

End Service.

(** ** [format.py] *)

Module FormatPy.
Import Py Jenjoy.

(** What [subprocess.run] does with the command: the process ends with a
    return code, or cannot be started. *)
Inductive vim_result : Type :=
| VimExited (returncode : Z)
| VimNotStarted.

(** The machine the formatter runs on: [shutil.which("vim")] finds
    something, [os.path.isfile], and the behaviour of a command. *)
Record host : Type := Host {
  vim_on_path : bool;
  isfile : str -> bool;
  run_command : list str -> vim_result
}.

(** The command line of [format_with_vim] in [format.py]. *)
Definition vim_command (filepath : str) : list str :=
  [ lit "vim"; lit "--clean";
    lit "-c"; lit "set tabstop=4";
    lit "-c"; lit "set shiftwidth=4";
    lit "-c"; lit "set expandtab";
    lit "-c"; lit "gg=G";
    lit "-c"; lit "wq";
    filepath ].

(** The command line of [format_with_vim] in [jenjoy.py]. *)
Definition jenjoy_vim_command (filepath : str) : list str :=
  [ lit "vim"; lit "--clean";
    lit "-c"; lit "set tabstop=4";
    lit "-c"; lit "set shiftwidth=4";
    lit "-c"; lit "set expandtab";
    lit "-c"; lit "normal gg=G";
    lit "-c"; lit "wq";
    filepath ].

(** The commands run, and how the call or the program ends. *)
Record format_run : Type := FormatRun {
  commands : list (list str);
  format_outcome : ending
}.

(** [subprocess.run(..., check=True)] raises unless the command ran and
    returned zero. *)
Definition run_checked (h : host) (argv : list str) : bool :=
  match run_command h argv with
  | VimExited returncode => (returncode =? 0)%Z
  | VimNotStarted => false
  end.

(** [format_with_vim(filepath)] of [format.py]. *)
Definition format_with_vim (h : host) (filepath : str) : format_run :=
  if negb (isfile h filepath) then FormatRun [] (SysExit 1)
  else if run_checked h (vim_command filepath)
       then FormatRun [vim_command filepath] Finished
       else FormatRun [vim_command filepath] (SysExit 1).

(** [main()] of [format.py]: [check_vim_available()], then the
    formatting. *)
Definition main (h : host) (file : str) : format_run :=
  if negb (vim_on_path h) then FormatRun [] (SysExit 1)
  else format_with_vim h file.

(** [format_with_vim(filepath)] of [jenjoy.py]: a failure is reported and
    the call returns all the same. *)
Definition jenjoy_format_with_vim (h : host) (filepath : str) : format_run :=
  FormatRun [jenjoy_vim_command filepath] Finished.

End FormatPy.

(** ** Specification vocabulary *)

Module Spec.
Import Py Jenjoy.

(** [sub] occurs in [s] at index [i]. *)
Definition occurs (sub s : str) (i : nat) : Prop :=
  exists pre post, s = pre ++ sub ++ post /\ length pre = i.

(** [i] is the index of the first occurrence of [sub] in [s]. *)
Definition first_at (sub s : str) (i : nat) : Prop :=
  occurs sub s i /\ forall k, k < i -> ~ occurs sub s k.

(** [i] is the index of the last occurrence of [sub] in [s]. *)
Definition last_at (sub s : str) (i : nat) : Prop :=
  occurs sub s i /\ forall k, occurs sub s k -> k <= i.

Definition absent (sub s : str) : Prop := forall i, ~ occurs sub s i.

(** [r] is [s] with its first occurrence of [old], if it has one, replaced
    by [new]. *)
Inductive replaced_first (old new : str) : str -> str -> Prop :=
| rf_absent s :
    absent old s -> replaced_first old new s s
| rf_found pre post :
    first_at old (pre ++ old ++ post) (length pre) ->
    replaced_first old new (pre ++ old ++ post) (pre ++ new ++ post).

(** [r] is [s] with every occurrence of [old] replaced by [new], the
    occurrences being taken from left to right and the search resuming after
    each of them. *)
Inductive replaced_all (old new : str) : str -> str -> Prop :=
| ra_absent s :
    absent old s -> replaced_all old new s s
| ra_found pre post r :
    first_at old (pre ++ old ++ post) (length pre) ->
    replaced_all old new post r ->
    replaced_all old new (pre ++ old ++ post) (pre ++ new ++ r).

(** The marker handling as the specification words it, a prefix being
    stripped when the line starts with it. *)
Definition spec_strip_marker_prefix (line : str) : str :=
  if startswith line (lit "data: ")
  then skipn (length (lit "data: ")) line
  else line.

(** [n] is a node of the tree rooted at [root]. *)
Inductive in_tree (n : node) : node -> Prop :=
| in_tree_here : in_tree n n
| in_tree_below (m c : node) :
    In c (node_children m) -> in_tree n c -> in_tree n m.

(** The record [visit] appends for a documentable node. *)
Definition record_of (source_code : str) (n : node) (hd : bool) : decl :=
  Decl (node_start_byte n) (node_end_byte n) (get_node_text source_code n) hd.

(** [d] is the record of a documentable node of the tree. *)
Definition from_tree (source_code : str) (root : node) (d : decl) : Prop :=
  exists n hd,
    in_tree n root /\ is_documentable (node_type n) = true
    /\ detect_doc source_code (fst (node_start_point n)) = Some hd
    /\ d = record_of source_code n hd.

(** Only white space, or nothing at all. *)
Definition blank (l : str) : Prop := forall c, In c l -> isspace c = true.

(** After its leading white space the line goes on with [p]. *)
Definition begins_with (p l : str) : Prop :=
  exists ws rest, l = ws ++ p ++ rest /\ blank ws.

(** A line the look-back steps over: blank, or continuing a comment. *)
Definition comment_continuation (l : str) : Prop :=
  begins_with (lit "*") l \/ begins_with (lit "//") l.

(** A whole documentation block on the line: an opening marker and, later
    on the line, a closing one. *)
Definition doc_block_line (l : str) : Prop :=
  exists a b c, l = a ++ lit "/**" ++ b ++ lit "*/" ++ c /\ ~ In LF b.

(** A documentation block stands on one of the five lines above [row], and
    every line between it and [row] is blank or continues a comment. *)
Definition documented_above (lines : list str) (row : nat) : Prop :=
  exists k l,
    1 <= k <= 5 /\ k <= row
    /\ nth_error lines (row - k) = Some l /\ doc_block_line l
    /\ forall j l', 1 <= j < k -> nth_error lines (row - j) = Some l' ->
                    blank l' \/ comment_continuation l'.

(** The only line terminators of [s] are line feeds, and [s] does not end
    with one. *)
Definition line_normalised (s : str) : Prop :=
  (forall c, In c s -> is_linebreak c = true -> c = LF)
  /\ (forall t, s <> t ++ [LF]).

(** [indent] is the leading white space of the non-blank [line]. *)
Definition indentation_of (line indent : str) : Prop :=
  exists c rest, line = indent ++ c :: rest /\ blank indent
                 /\ isspace c = false.

(** A comment line [l] once re-indented: a blank line is kept as it is, any
    other line has [indent] put before it. *)
Definition reindented (indent l l' : str) : Prop :=
  (blank l /\ l' = l) \/ (~ blank l /\ l' = indent ++ l).

(** Each line followed by a line feed. *)
Definition terminated (lines : list str) : str :=
  concat (map (fun l => l ++ [LF]) lines).

(** How [above], [rest] and [indent] relate to the lines of a declaration:
    [above] is the run of blank lines before the first line with code on it,
    [rest] is the text from that line on and [indent] its leading white space;
    when no line has code, [above] and [indent] are empty. *)
Definition anchored (lines : list str) (above rest indent : str) : Prop :=
  (exists blanks anchor below,
      lines = blanks ++ anchor :: below
      /\ Forall blank blanks /\ ~ blank anchor
      /\ indentation_of anchor indent
      /\ above = terminated blanks
      /\ rest = join [LF] (anchor :: below))
  \/ (Forall blank lines /\ indent = [] /\ above = []
      /\ rest = join [LF] lines).

(** A declaration the loop sends to the service: not documented yet and not
    above the token threshold. *)
Definition accepted (isalnum : char -> bool) (d : decl) : Prop :=
  has_doc d = false /\ count_tokens isalnum (method_source d) <= 2048.

(** The nodes of a tree, each before its descendants, children from left
    to right. *)
Fixpoint preorder (n : node) : list node :=
  n :: flat_map preorder (node_children n).

(** How a record answers to its node: it has the node's offsets and text,
    and the [has_doc] the look-back computes for the node's row. *)
Definition scanned (source_code : str) (n : node) (d : decl) : Prop :=
  detect_doc source_code (fst (node_start_point n)) = Some (has_doc d)
  /\ d = record_of source_code n (has_doc d).

Definition documentable (n : node) : bool := is_documentable (node_type n).

(** [accepted] as a test. *)
Definition acceptedb (isalnum : char -> bool) (d : decl) : bool :=
  negb (has_doc d) && (count_tokens isalnum (method_source d) <=? 2048).

(** Nobody interrupts at the top of the first [n] iterations of the loop. *)
Definition quiet (w : world) (n : nat) : Prop :=
  forall i, i < n -> sigint w i = false.

(** The service answers every request the loop makes for the declarations
    of [ds]; the request for an accepted declaration comes after one request
    for each accepted declaration before it. *)
Definition answered (isalnum : char -> bool) (w : world) (ds : list decl)
  : Prop :=
  forall before d after,
    ds = before ++ d :: after -> acceptedb isalnum d = true ->
    exists text,
      service w (length (filter (acceptedb isalnum) before)) (method_source d)
      = Reply text.

(** The user's interrupt reaches the loop at the declaration [d] that
    follows [before]: at the top of its iteration, or while the service is
    called for it. *)
Definition interrupted_at (isalnum : char -> bool) (w : world)
    (before : list decl) (d : decl) : Prop :=
  sigint w (length before) = true
  \/ (acceptedb isalnum d = true
      /\ service w (length (filter (acceptedb isalnum) before))
                  (method_source d) = Interrupted).

(** The rows of a text as the parser counts them for [start_point]: a row
    ends at a line feed, and at nothing else. *)
Fixpoint rows_from (cur : str) (s : str) : list str :=
  match s with
  | [] => [rev cur]
  | c :: s' =>
      if N.eqb c LF then rev cur :: rows_from [] s'
      else rows_from (c :: cur) s'
  end.

Definition parser_rows (s : str) : list str := rows_from [] s.

(** The number of levels of a tree. *)
Fixpoint height (n : node) : nat :=
  S (fold_right (fun c m => Nat.max (height c) m) 0 (node_children n)).

(** Whether the text read so far ends inside a run of word characters;
    [in_word] is the answer before [text]. *)
Definition ends_in_word (isalnum : char -> bool) (in_word : bool)
    (text : str) : bool :=
  fold_left (fun _ c => is_word isalnum c) text in_word.

(** [part] is a contiguous piece of [s]. *)
Definition part_of (part s : str) : Prop :=
  exists pre post, s = pre ++ part ++ post.

(** One fragment and its contribution to the reassembled text: the first
    occurrence of the marker goes, wherever it stands, then every escape
    token becomes a line feed. *)
Definition cleaned (line part : str) : Prop :=
  exists l, replaced_first (lit "data: ") [] line l
            /\ replaced_all (lit "[h_newline]") [LF] l part.

End Spec.

(** ** Sample inputs *)

Module Samples.
Import Py Jenjoy.

(** The reply used to exercise the extractor. *)
Definition chatty_reply : str :=
  lit "blah blah" ++ [LF] ++ lit "  /** Does X." ++ [LF] ++ lit "   * more."
  ++ [LF] ++ lit "   */" ++ [LF] ++ lit "trailing junk".

Definition chatty_comment : str :=
  lit "  /** Does X." ++ [LF] ++ lit "   * more." ++ [LF] ++ lit "   */".

(** A reply whose comment is never closed. *)
Definition unterminated_reply : str := lit "Sure: /** Returns x.".

(** [str.isalnum] on the ASCII range (no other character is asked about in
    the runs below). *)
Definition ascii_isalnum (c : char) : bool :=
  ((48 <=? c) && (c <=? 57) || (65 <=? c) && (c <=? 90)
   || (97 <=? c) && (c <=? 122))%N.

(** [Two.java]: two documented classes, each with the same undocumented
    method. *)
Definition two_java : str :=
  lit "/** A */" ++ [LF] ++ lit "class A {" ++ [LF] ++ lit "void f() {}"
  ++ [LF] ++ lit "}" ++ [LF]
  ++ lit "/** B */" ++ [LF] ++ lit "class B {" ++ [LF] ++ lit "void f() {}"
  ++ [LF] ++ lit "}" ++ [LF].

(** The tree of [Two.java], without the token leaves (they are not
    declarations and have no children). *)
Definition two_tree : node :=
  Node (lit "program") 0 66 (0, 0)
    [ Node (lit "block_comment") 0 8 (0, 0) [];
      Node (lit "class_declaration") 9 32 (1, 0)
        [ Node (lit "identifier") 15 16 (1, 6) [];
          Node (lit "class_body") 17 32 (1, 8)
            [ Node (lit "method_declaration") 19 30 (2, 0) [] ] ];
      Node (lit "block_comment") 33 41 (4, 0) [];
      Node (lit "class_declaration") 42 65 (5, 0)
        [ Node (lit "identifier") 48 49 (5, 6) [];
          Node (lit "class_body") 50 65 (5, 8)
            [ Node (lit "method_declaration") 52 63 (6, 0) [] ] ] ].

Definition two_class_a : decl :=
  Decl 9 32 (lit "class A {" ++ [LF] ++ lit "void f() {}" ++ [LF] ++ lit "}")
       true.
Definition two_class_b : decl :=
  Decl 42 65 (lit "class B {" ++ [LF] ++ lit "void f() {}" ++ [LF] ++ lit "}")
       true.
Definition two_method_a : decl := Decl 19 30 (lit "void f() {}") false.
Definition two_method_b : decl := Decl 52 63 (lit "void f() {}") false.

Definition two_nodes : list decl :=
  [two_class_a; two_method_a; two_class_b; two_method_b].

Definition two_args : arguments :=
  Arguments_ (lit "Two.java") None (lit "secret").

(** An interpreter with a recursion limit of 1000, four frames being in use
    when the scan starts and [re.search] taking two; and a disk that holds
    one file. *)
Definition cpython : interpreter := Interpreter 996 2.

Definition one_file (path content : str) : str -> option stored :=
  fun p => if str_eqb p path then Some (Stored content) else None.

(** The service answers its first request with one comment and the later
    ones with another; nobody interrupts. *)
Definition two_world : world :=
  World (one_file (lit "Two.java") two_java) [LF] (fun _ => true) cpython
        (fun k _ => match k with
                    | 0 => Reply (lit "data: /** first */")
                    | _ => Reply (lit "data: /** second */")
                    end)
        (fun _ => false).

Definition two_merged : str :=
  lit "/** second */" ++ [LF] ++ lit "void f() {}".

Definition two_output : str :=
  lit "/** A */" ++ [LF] ++ lit "class A {" ++ [LF]
  ++ lit "/** second */" ++ [LF] ++ lit "void f() {}"
  ++ [LF] ++ lit "}" ++ [LF]
  ++ lit "/** B */" ++ [LF] ++ lit "class B {" ++ [LF]
  ++ lit "/** second */" ++ [LF] ++ lit "void f() {}"
  ++ [LF] ++ lit "}" ++ [LF].

(** [Big.java]: a class of more than 2048 tokens around a small method. *)
Definition big_java : str :=
  lit "class A {" ++ [LF] ++ repeat 59%N 2049 ++ [LF] ++ lit "void f() {}"
  ++ [LF] ++ lit "}" ++ [LF].

Definition big_tree : node :=
  Node (lit "program") 0 2074 (0, 0)
    [ Node (lit "class_declaration") 0 2073 (0, 0)
        [ Node (lit "identifier") 6 7 (0, 6) [];
          Node (lit "class_body") 8 2073 (0, 8)
            [ Node (lit "method_declaration") 2060 2071 (2, 0) [] ] ] ].

Definition big_class : decl :=
  Decl 0 2073
       (lit "class A {" ++ [LF] ++ repeat 59%N 2049 ++ [LF]
        ++ lit "void f() {}" ++ [LF] ++ lit "}")
       false.
Definition big_method : decl := Decl 2060 2071 (lit "void f() {}") false.

Definition big_args : arguments :=
  Arguments_ (lit "Big.java") None (lit "secret").

Definition big_world : world :=
  World (one_file (lit "Big.java") big_java) [LF] (fun _ => true) cpython
        (fun _ _ => Reply (lit "/** Does nothing. */"))
        (fun _ => false).

Definition big_output : str :=
  lit "class A {" ++ [LF] ++ repeat 59%N 2049 ++ [LF]
  ++ lit "/** Does nothing. */" ++ [LF] ++ lit "void f() {}"
  ++ [LF] ++ lit "}" ++ [LF].

Definition two_parse (source_code : str) : node := two_tree.
Definition big_parse (source_code : str) : node := big_tree.

(** The user interrupts at the top of the third iteration. *)
Definition impatient_world : world :=
  World (disk two_world) [LF] (fun _ => true) cpython (service two_world)
        (fun k => Nat.eqb k 2).

(** [Done.java]: one class, documented already. *)
Definition done_java : str :=
  lit "/** A */" ++ [LF] ++ lit "class A {}" ++ [LF].

Definition done_parse (source_code : str) : node :=
  Node (lit "program") 0 20 (0, 0)
    [ Node (lit "block_comment") 0 8 (0, 0) [];
      Node (lit "class_declaration") 9 19 (1, 0)
        [ Node (lit "identifier") 15 16 (1, 6) [];
          Node (lit "class_body") 17 19 (1, 8) [] ] ].



(** A method whose braces are separated by a form feed, and a comment. *)
Definition formfeed_method : str := lit "void f() {" ++ [12%N] ++ lit "}".
Definition short_comment : str := lit "/** d */".

(** An indented method and a comment with an empty line in it. *)
Definition indented_method : str :=
  [LF] ++ lit "    int g() {" ++ [LF] ++ lit "        return 1;" ++ [LF]
  ++ lit "    }".
Definition spaced_comment : str :=
  lit "/**" ++ [LF] ++ lit " * One." ++ [LF] ++ [LF] ++ lit " */".

(** The service answers its first request and fails on the second. *)
Definition failing_world : world :=
  World (disk two_world) [LF] (fun _ => true) cpython
        (fun k _ => match k with
                    | 0 => Reply (lit "data: /** first */")
                    | _ => Failed
                    end)
        (fun _ => false).

(** A transport that always answers 200 with the same comment, and the
    world it makes. *)
Definition ok_post (k : nat) (req : Service.request) : Service.post_result :=
  Service.Response 200 (lit "/** Fine. */").

Definition served_world : world :=
  World (disk two_world) [LF] (fun _ => true) cpython
        (fun k src => Service.call_deepseek (ok_post k) (lit "secret") src)
        (fun _ => false).

(** [Big.java] around its method. *)
Definition big_pre : str :=
  lit "class A {" ++ [LF] ++ repeat 59%N 2049 ++ [LF].
Definition big_post : str := [LF] ++ lit "}" ++ [LF].

(** A reply on three lines. *)
Definition three_line_reply : str :=
  lit "/**" ++ [LF] ++ lit " * Does X." ++ [LF] ++ lit " */".

(** A response line that carries the marker in its middle. *)
Definition inner_marker_line : str := lit " * @param data: the payload".

(** [Page.java]: a comment followed by a form feed, then on rows of their
    own an import and class [B]; its tree without the token leaves. *)
Definition page_java : str :=
  lit "/** A */" ++ [12%N] ++ [LF] ++ lit "import a.B;" ++ [LF]
  ++ lit "class B {}" ++ [LF].

Definition page_parse (source_code : str) : node :=
  Node (lit "program") 0 33 (0, 0)
    [ Node (lit "block_comment") 0 8 (0, 0) [];
      Node (lit "import_declaration") 10 21 (1, 0)
        [ Node (lit "scoped_identifier") 17 20 (1, 7) [] ];
      Node (lit "class_declaration") 22 32 (2, 0)
        [ Node (lit "identifier") 28 29 (2, 6) [];
          Node (lit "class_body") 30 32 (2, 8) [] ] ].

Definition page_class : decl := Decl 22 32 (lit "class B {}") true.



(** The user interrupts while the service works on the second request. *)
Definition interrupting_world : world :=
  World (disk two_world) [LF] (fun _ => true) cpython
        (fun k _ => match k with
                    | 0 => Reply (lit "data: /** first */")
                    | _ => Interrupted
                    end)
        (fun _ => false).

(** The output file cannot be opened for writing. *)
Definition readonly_world : world :=
  World (disk two_world) [LF] (fun _ => false) cpython (service two_world)
        (fun _ => false).

(** A chain of [n] nested nodes, none of them a declaration. *)
Fixpoint chain (n : nat) : node :=
  match n with
  | 0 => Node (lit "block") 0 0 (0, 0) []
  | S k => Node (lit "block") 0 0 (0, 0) [chain k]
  end.

End Samples.

Import Py Re Jenjoy Spec.

(** * Properties *)

(** ** Strings *)

Section StringFacts.

Lemma app_same_length (a a' b b' : str) :
  length a = length a' -> a ++ b = a' ++ b' -> a = a' /\ b = b'.
Proof.
  revert a'; induction a as [|x a IH]; intros [|y a'] Hlen E;
    try discriminate; [now split|].
  simpl in *. injection E as -> E. injection Hlen as Hlen.
  destruct (IH _ Hlen E) as [-> ->]. now split.
Qed.

Lemma startswith_app (p r : str) : startswith (p ++ r) p = true.
Proof.
  induction p as [|x p IH]; simpl; [reflexivity|].
  now rewrite N.eqb_refl, IH.
Qed.

Lemma startswith_inv (s p : str) :
  startswith s p = true -> exists r, s = p ++ r.
Proof.
  revert s; induction p as [|x p IH]; intros s H; simpl in *.
  - now exists s.
  - destruct s as [|y s]; [discriminate|].
    apply andb_true_iff in H as [Hxy Hs].
    apply N.eqb_eq in Hxy; subst y.
    destruct (IH _ Hs) as [r ->]. now exists r.
Qed.

Lemma startswith_iff (s p : str) :
  startswith s p = true <-> exists r, s = p ++ r.
Proof.
  split; [apply startswith_inv|]. intros [r ->]. apply startswith_app.
Qed.

Lemma str_eqb_eq (a b : str) : str_eqb a b = true <-> a = b.
Proof.
  revert b; induction a as [|x a IH]; intros [|y b]; simpl;
    try (split; [discriminate|discriminate]); try tauto.
  rewrite andb_true_iff, N.eqb_eq, IH. split.
  - now intros [-> ->].
  - intros H; injection H; auto.
Qed.

Lemma str_eqb_refl (a : str) : str_eqb a a = true.
Proof. now apply str_eqb_eq. Qed.


Lemma occurs_head (sub s : str) : occurs sub s 0 <-> startswith s sub = true.
Proof.
  rewrite startswith_iff. split.
  - intros (pre & post & -> & Hlen).
    destruct pre; [|discriminate]. now exists post.
  - intros [r ->]. now exists [], r.
Qed.

Lemma occurs_tail (sub : str) (c : char) (s : str) (i : nat) :
  occurs sub (c :: s) (S i) <-> occurs sub s i.
Proof.
  split.
  - intros (pre & post & E & Hlen).
    destruct pre as [|x pre]; [discriminate|].
    simpl in E, Hlen. injection E as -> ->. injection Hlen as <-.
    now exists pre, post.
  - intros (pre & post & -> & <-). now exists (c :: pre), post.
Qed.

Lemma occurs_bound (sub s : str) (i : nat) :
  occurs sub s i -> i + length sub <= length s.
Proof.
  intros (pre & post & -> & <-). rewrite !length_app. lia.
Qed.

Lemma occurs_nil_inv (sub : str) (i : nat) :
  occurs sub [] i -> sub = [] /\ i = 0.
Proof.
  intros (pre & post & E & <-).
  symmetry in E. apply app_eq_nil in E as [-> E].
  apply app_eq_nil in E as [-> _]. auto.
Qed.

Lemma occurs_app_here (pre sub post : str) :
  occurs sub (pre ++ sub ++ post) (length pre).
Proof. now exists pre, post. Qed.

Lemma occurs_skip (sub pre s : str) (i : nat) :
  occurs sub (pre ++ s) (length pre + i) <-> occurs sub s i.
Proof.
  induction pre as [|c pre IH]; simpl; [tauto|].
  now rewrite occurs_tail.
Qed.

Lemma find_go_some (sub : str) (s : str) (idx j : nat) :
  find_go sub idx s = Some j ->
  exists i, j = idx + i /\ first_at sub s i.
Proof.
  revert idx; induction s as [|c s IH]; intros idx; simpl.
  - destruct sub; simpl; [|discriminate].
    intros [= <-]. exists 0. split; [lia|]. split; [now exists [], []|lia].
  - destruct (startswith (c :: s) sub) eqn:Hs.
    + intros [= <-]. exists 0. split; [lia|].
      split; [now apply occurs_head|lia].
    + intros H. destruct (IH _ H) as (i & -> & Ho & Hfirst).
      exists (S i). split; [lia|]. split; [now apply occurs_tail|].
      intros [|k] Hk Hocc.
      * apply occurs_head in Hocc. congruence.
      * apply occurs_tail in Hocc. apply (Hfirst k); [lia|assumption].
Qed.

Lemma find_go_none (sub : str) (s : str) (idx : nat) :
  find_go sub idx s = None -> absent sub s.
Proof.
  revert idx; induction s as [|c s IH]; intros idx; simpl.
  - destruct sub; simpl; [discriminate|].
    intros _ i Ho. apply occurs_nil_inv in Ho as [? _]. discriminate.
  - destruct (startswith (c :: s) sub) eqn:Hs; [discriminate|].
    intros H [|i] Ho.
    + apply occurs_head in Ho. congruence.
    + apply occurs_tail in Ho. exact (IH _ H i Ho).
Qed.

Lemma find_go_first (sub s : str) (idx i : nat) :
  first_at sub s i -> find_go sub idx s = Some (idx + i).
Proof.
  intros [Ho Hfirst].
  destruct (find_go sub idx s) as [j|] eqn:E.
  - apply find_go_some in E as (i' & -> & Ho' & Hfirst').
    f_equal. f_equal.
    destruct (Nat.lt_trichotomy i i') as [Hlt|[->|Hlt]]; [|reflexivity|].
    + now destruct (Hfirst' i Hlt).
    + now destruct (Hfirst i' Hlt).
  - now destruct (find_go_none _ _ _ E i).
Qed.

Lemma rfind_go_none (sub : str) (s : str) (idx : nat) :
  rfind_go sub idx s = None -> absent sub s.
Proof.
  revert idx. induction s as [|c s IH]; intros idx.
  - simpl. destruct sub; simpl; [discriminate|].
    intros _ i Ho. apply occurs_nil_inv in Ho as [? _]. discriminate.
  - cbn [rfind_go].
    destruct (rfind_go sub (S idx) s) eqn:E'; [discriminate|].
    destruct (startswith (c :: s) sub) eqn:Hs; [discriminate|].
    intros _ [|i] Ho.
    + apply occurs_head in Ho. congruence.
    + apply occurs_tail in Ho. exact (IH _ E' i Ho).
Qed.

Lemma rfind_go_some (sub : str) (s : str) (idx j : nat) :
  rfind_go sub idx s = Some j ->
  exists i, j = idx + i /\ last_at sub s i.
Proof.
  revert idx j; induction s as [|c s IH]; intros idx j.
  - simpl. destruct sub; simpl; [|discriminate].
    intros [= <-]. exists 0. split; [lia|]. split; [now exists [], []|].
    intros k Hk. apply occurs_nil_inv in Hk. lia.
  - cbn [rfind_go]. destruct (rfind_go sub (S idx) s) as [j'|] eqn:E.
    + intros [= <-]. destruct (IH _ _ E) as (i & -> & Ho & Hlast).
      exists (S i). split; [lia|]. split; [now apply occurs_tail|].
      intros [|k] Hk; [lia|]. apply occurs_tail in Hk.
      apply Hlast in Hk. lia.
    + destruct (startswith (c :: s) sub) eqn:Hs; [|discriminate].
      intros [= <-]. exists 0. split; [lia|].
      split; [now apply occurs_head|].
      intros [|k] Hk; [lia|]. apply occurs_tail in Hk.
      now destruct (rfind_go_none _ _ _ E k).
Qed.

End StringFacts.

(** ** [find], [rfind] and slices *)

Section Searching.

Lemma clamp_inside (n i : nat) :
  i <= n -> clamp (Z.of_nat n) (Z.of_nat i) = Z.of_nat i.
Proof.
  intros H. unfold clamp.
  destruct (Z.ltb_spec (Z.of_nat i) 0); lia.
Qed.

Lemma slice_inside (s : str) (a b : nat) :
  a <= b -> b <= length s ->
  slice s (Z.of_nat a) (Z.of_nat b) = firstn (b - a) (skipn a s).
Proof.
  intros Hab Hb. unfold slice.
  rewrite !clamp_inside by lia.
  rewrite Nat2Z.id. f_equal. lia.
Qed.

Lemma slice_to_inside (s : str) (b : nat) :
  b <= length s -> slice_to s (Z.of_nat b) = firstn b s.
Proof.
  intros Hb. unfold slice_to.
  change 0%Z with (Z.of_nat 0).
  rewrite slice_inside by lia.
  simpl. f_equal. lia.
Qed.


Lemma occurs_in_suffix (sub s : str) (a i : nat) :
  a <= length s -> (occurs sub (skipn a s) i <-> occurs sub s (a + i)).
Proof.
  intros Ha.
  pose proof (occurs_skip sub (firstn a s) (skipn a s) i) as H.
  rewrite firstn_skipn, length_firstn, Nat.min_l in H by lia.
  symmetry. exact H.
Qed.

Lemma find_found (s sub : str) (a i : nat) :
  a <= i -> occurs sub s i ->
  (forall k, a <= k < i -> ~ occurs sub s k) ->
  find s sub (Z.of_nat a) = Z.of_nat i.
Proof.
  intros Hai Ho Hfirst.
  pose proof (occurs_bound _ _ _ Ho) as Hb.
  unfold find.
  destruct (Z.ltb_spec (Z.of_nat (length s)) (Z.of_nat a)); [lia|].
  rewrite clamp_inside, Nat2Z.id by lia.
  assert (F : first_at sub (skipn a s) (i - a)).
  { split.
    - apply occurs_in_suffix; [lia|]. now replace (a + (i - a)) with i by lia.
    - intros k Hk Hk'. apply occurs_in_suffix in Hk'; [|lia].
      apply (Hfirst (a + k)); [lia|assumption]. }
  rewrite (find_go_first _ _ a _ F). f_equal. lia.
Qed.

Lemma find_missing (s sub : str) (a : nat) :
  a <= length s ->
  (forall j, a <= j -> ~ occurs sub s j) ->
  find s sub (Z.of_nat a) = (-1)%Z.
Proof.
  intros Ha Hnone. unfold find.
  destruct (Z.ltb_spec (Z.of_nat (length s)) (Z.of_nat a)); [lia|].
  rewrite clamp_inside, Nat2Z.id by lia.
  destruct (find_go sub a (skipn a s)) as [j|] eqn:E; [|reflexivity].
  apply find_go_some in E as (i & -> & Ho & _).
  apply occurs_in_suffix in Ho; [|assumption].
  now destruct (Hnone (a + i) ltac:(lia)).
Qed.

Lemma find_result (s sub : str) (a : nat) :
  a <= length s ->
  (find s sub (Z.of_nat a) = (-1)%Z /\
   forall j, a <= j -> ~ occurs sub s j)
  \/ (exists i, find s sub (Z.of_nat a) = Z.of_nat i /\ a <= i /\
                occurs sub s i /\ forall k, a <= k < i -> ~ occurs sub s k).
Proof.
  intros Ha.
  destruct (find_go sub a (skipn a s)) as [j|] eqn:E.
  - right. apply find_go_some in E as (i & -> & Ho & Hfirst).
    apply occurs_in_suffix in Ho; [|assumption].
    assert (Hf : forall k, a <= k < a + i -> ~ occurs sub s k).
    { intros k Hk Hk'. apply (Hfirst (k - a)); [lia|].
      apply occurs_in_suffix; [lia|].
      now replace (a + (k - a)) with k by lia. }
    exists (a + i). split; [|split; [lia|split; assumption]].
    apply find_found; [lia|assumption|assumption].
  - left. pose proof (find_go_none _ _ _ E) as Hnone.
    assert (Hn : forall j, a <= j -> ~ occurs sub s j).
    { intros j Hj Ho. apply (Hnone (j - a)).
      apply occurs_in_suffix; [lia|].
      now replace (a + (j - a)) with j by lia. }
    split; [|assumption]. now apply find_missing.
Qed.

Lemma rfind_absent (s sub : str) :
  absent sub s -> rfind s sub = (-1)%Z.
Proof.
  intros Hnone. unfold rfind.
  destruct (rfind_go sub 0 s) as [j|] eqn:E; [|reflexivity].
  apply rfind_go_some in E as (i & _ & Ho & _).
  now destruct (Hnone i).
Qed.

Lemma rfind_last (s sub : str) (i : nat) :
  last_at sub s i -> rfind s sub = Z.of_nat i.
Proof.
  intros [Ho Hlast]. unfold rfind.
  destruct (rfind_go sub 0 s) as [j|] eqn:E.
  - apply rfind_go_some in E as (i' & -> & Ho' & Hlast').
    simpl. f_equal. apply Hlast in Ho'. apply Hlast' in Ho. lia.
  - now destruct (rfind_go_none _ _ _ E i).
Qed.

Lemma rfind_result (s sub : str) :
  (rfind s sub = (-1)%Z /\ absent sub s)
  \/ (exists i, rfind s sub = Z.of_nat i /\ last_at sub s i).
Proof.
  unfold rfind. destruct (rfind_go sub 0 s) as [j|] eqn:E.
  - right. apply rfind_go_some in E as (i & -> & Hl). now exists i.
  - left. split; [reflexivity|]. exact (rfind_go_none _ _ _ E).
Qed.

Lemma rfind_minus1 (s sub : str) :
  rfind s sub = (-1)%Z -> absent sub s.
Proof.
  intros H. destruct (rfind_result s sub) as [[_ Ha]|(i & Hi & _)];
    [assumption|lia].
Qed.

Lemma rfind_index (s sub : str) (i : nat) :
  rfind s sub = Z.of_nat i -> last_at sub s i.
Proof.
  intros H. destruct (rfind_result s sub) as [[Hm _]|(i' & Hi & Hl)]; [lia|].
  assert (i = i') by lia. now subst.
Qed.

Lemma find_minus1 (s sub : str) (a : nat) :
  a <= length s -> find s sub (Z.of_nat a) = (-1)%Z ->
  forall j, a <= j -> ~ occurs sub s j.
Proof.
  intros Ha H. destruct (find_result s sub a Ha) as [[_ Hn]|(i & Hi & _)];
    [assumption|lia].
Qed.

Lemma find_index (s sub : str) (a i : nat) :
  a <= length s -> find s sub (Z.of_nat a) = Z.of_nat i ->
  a <= i /\ occurs sub s i /\ forall k, a <= k < i -> ~ occurs sub s k.
Proof.
  intros Ha H.
  destruct (find_result s sub a Ha) as [[Hm _]|(i' & Hi & Hr)]; [lia|].
  assert (i = i') by lia. now subst.
Qed.

Lemma occurs_first_char (c : char) (sub s : str) (i : nat) :
  occurs (c :: sub) s i -> nth_error s i = Some c.
Proof.
  intros (pre & post & -> & <-).
  rewrite nth_error_app2 by lia. now rewrite Nat.sub_diag.
Qed.

End Searching.

(** ** The pattern [[ \t]*$] *)

Section IndentSearch.

Lemma match_hws_eol_chars (s : str) :
  match_hws_eol s = true ->
  forall c, In c s -> is_hws c = true \/ c = LF.
Proof.
  induction s as [|x s IH]; simpl; [tauto|].
  intros H c [<-|Hc].
  - apply orb_true_iff in H as [H|H].
    + apply andb_true_iff in H as [H _]. now left.
    + destruct s; [|discriminate]. right. now apply N.eqb_eq.
  - apply orb_true_iff in H as [H|H].
    + apply andb_true_iff in H as [_ H]. now apply IH.
    + destruct s; [destruct Hc|discriminate].
Qed.

Lemma search_hws_eol_go_spec (s : str) (idx : nat) :
  exists m, search_hws_eol_go idx s = Some (idx + m)
            /\ m <= length s
            /\ match_hws_eol (skipn m s) = true
            /\ forall k, k < m -> match_hws_eol (skipn k s) = false.
Proof.
  revert idx; induction s as [|x s IH]; intros idx.
  - exists 0. simpl. rewrite Nat.add_0_r. repeat split; auto; lia.
  - cbn [search_hws_eol_go].
    destruct (match_hws_eol (x :: s)) eqn:E.
    + exists 0. rewrite Nat.add_0_r. repeat split; auto; lia.
    + destruct (IH (S idx)) as (m & Hm & Hle & Hmatch & Hfirst).
      exists (S m). split; [rewrite Hm; f_equal; lia|].
      split; [simpl; lia|]. split; [exact Hmatch|].
      intros [|k] Hk; simpl; [assumption|]. apply Hfirst. lia.
Qed.

Lemma match_hws_eol_blanks (s : str) :
  (forall c, In c s -> is_hws c = true) -> match_hws_eol s = true.
Proof.
  induction s as [|x s IH]; intros H; simpl; [reflexivity|].
  rewrite (H x) by now left. rewrite IH; [reflexivity|].
  intros c Hc. apply H. now right.
Qed.

(** In a match of [[ \t]*$] only the last character can be something else
    than a blank or a tab, and then it is a line feed. *)
Lemma match_hws_eol_other (s : str) (i : nat) (c : char) :
  match_hws_eol s = true -> nth_error s i = Some c -> is_hws c = false ->
  c = LF /\ S i = length s.
Proof.
  revert i; induction s as [|x s IH]; intros i Hm Hi Hc;
    [now destruct i|].
  simpl in Hm. apply orb_true_iff in Hm as [Hm|Hm].
  - apply andb_true_iff in Hm as [Hx Hm]. destruct i as [|i].
    + simpl in Hi. injection Hi as <-. congruence.
    + simpl in Hi. destruct (IH i Hm Hi Hc) as [-> Hlen].
      split; [reflexivity|simpl; lia].
  - destruct s; [|discriminate]. apply N.eqb_eq in Hm. subst x.
    destruct i as [|i]; [|now destruct i].
    simpl in Hi. injection Hi as <-. auto.
Qed.

(** Where the search stops when the subject ends with a run of blanks and
    tabs that starts at [m]. *)
Lemma search_hws_eol_run (s : str) (m : nat) :
  m <= length s ->
  (forall j c, m <= j -> nth_error s j = Some c -> is_hws c = true) ->
  (m = 0 \/ exists c, nth_error s (m - 1) = Some c /\ is_hws c = false
                      /\ (m = length s -> c <> LF)) ->
  search_hws_eol s = Some (Z.of_nat m).
Proof.
  intros Hm Hrun Hbefore.
  destruct (search_hws_eol_go_spec s 0) as (m' & E & Hle & Hmatch & Hfirst).
  unfold search_hws_eol. rewrite E. simpl. do 2 f_equal.
  assert (Hhere : match_hws_eol (skipn m s) = true).
  { apply match_hws_eol_blanks. intros c Hc.
    apply In_nth_error in Hc as [i Hi]. rewrite nth_error_skipn in Hi.
    apply (Hrun (m + i)); [lia|assumption]. }
  destruct (Nat.lt_trichotomy m' m) as [Hlt|[->|Hgt]]; [|reflexivity|].
  - destruct Hbefore as [->|(c & Hc & Hnot & Hend)]; [lia|].
    assert (Hc' : nth_error (skipn m' s) (m - 1 - m') = Some c).
    { rewrite nth_error_skipn. now replace (m' + (m - 1 - m')) with (m - 1)
        by lia. }
    destruct (match_hws_eol_other _ _ _ Hmatch Hc' Hnot) as [-> Hlen].
    rewrite length_skipn in Hlen. destruct Hend; [lia|reflexivity].
  - rewrite (Hfirst m Hgt) in Hhere. discriminate.
Qed.

(** The search never fails: the [if prefix] test of the script always
    passes. *)
Lemma search_hws_eol_total (s : str) :
  exists m, search_hws_eol s = Some (Z.of_nat m)
            /\ m <= length s
            /\ match_hws_eol (skipn m s) = true
            /\ forall k, k < m -> match_hws_eol (skipn k s) = false.
Proof.
  destruct (search_hws_eol_go_spec s 0) as (m & Hm & H).
  exists m. split; [|exact H]. unfold search_hws_eol. now rewrite Hm.
Qed.

End IndentSearch.

(** ** [extract_doc_comment] *)

Section Extractor.

(** What the extractor computes when the text has an opening marker: the
    start of the captured span lies at or before the last opener, and only
    blanks, tabs and at most a final line feed lie between the two. *)
Lemma extract_start (text : str) (p : nat) :
  last_at (lit "/**") text p ->
  exists m,
    search_hws_eol (slice_to text (Z.of_nat p)) = Some (Z.of_nat m)
    /\ m <= p
    /\ (forall j c, m <= j < p -> nth_error text j = Some c ->
                    is_hws c = true \/ c = LF)
    /\ extract_doc_comment text =
       (let end_ := find text (lit "*/") (Z.of_nat m) in
        if negb (end_ =? -1)%Z then slice text (Z.of_nat m) (end_ + 2)
        else text).
Proof.
  intros Hlast.
  assert (Hp : p <= length text).
  { destruct Hlast as [Ho _]. apply occurs_bound in Ho. lia. }
  destruct (search_hws_eol_total (slice_to text (Z.of_nat p)))
    as (m & Hm & Hle & Hmatch & _).
  rewrite slice_to_inside in Hm, Hle, Hmatch by assumption.
  rewrite length_firstn, Nat.min_l in Hle by assumption.
  exists m. split; [now rewrite slice_to_inside|]. split; [assumption|].
  split.
  - intros j c Hj Hc.
    apply (match_hws_eol_chars _ Hmatch).
    apply nth_error_In with (n := j - m).
    rewrite nth_error_skipn, nth_error_firstn.
    replace (m + (j - m)) with j by lia.
    destruct (Nat.ltb_spec j p); [assumption|lia].
  - unfold extract_doc_comment.
    rewrite (rfind_last _ _ _ Hlast).
    assert (E1 : (Z.of_nat p =? -1)%Z = false) by (apply Z.eqb_neq; lia).
    assert (E2 : (Z.of_nat m =? -1)%Z = false) by (apply Z.eqb_neq; lia).
    rewrite E1. cbn [negb].
    rewrite slice_to_inside by assumption.
    rewrite Hm, E2. reflexivity.
Qed.

(** C6. When the text has no opening marker, or no closing marker at or after
    its last opening marker, [extract_doc_comment] hands the whole text back
    unchanged; being a total function, it does so without raising. *)
Theorem extract_doc_comment_fallback (text : str) :
  absent (lit "/**") text
  \/ (exists p, last_at (lit "/**") text p
                /\ forall j, p <= j -> ~ occurs (lit "*/") text j) ->
  extract_doc_comment text = text.
Proof.
  intros [Hnone | (p & Hlast & Hclose)].
  - unfold extract_doc_comment.
    rewrite (rfind_absent _ _ Hnone). reflexivity.
  - destruct (extract_start _ _ Hlast) as (m & _ & Hmp & Hgap & ->).
    assert (Hp : p <= length text).
    { destruct Hlast as [Ho _]. apply occurs_bound in Ho. lia. }
    cbv zeta. rewrite find_missing; [reflexivity|lia|].
    intros j Hj Ho.
    destruct (Nat.le_gt_cases p j) as [Hpj|Hpj].
    + exact (Hclose j Hpj Ho).
    + apply occurs_first_char in Ho.
      destruct (Hgap j _ (conj Hj Hpj) Ho) as [H|H]; discriminate H.
Qed.

(** X28. The regular case: the span starts where the run of blanks and tabs
    before the last opening marker starts, and ends with the first closing
    marker from there on.  (When the opening marker stands right after a
    line feed the pattern [$] lets the span start before that line feed; the
    last premise sets that case aside.) *)
Lemma extract_doc_comment_found (text : str) (p m e : nat) :
  last_at (lit "/**") text p ->
  m <= p ->
  (forall j c, m <= j < p -> nth_error text j = Some c -> is_hws c = true) ->
  (m = 0 \/ exists c, nth_error text (m - 1) = Some c /\ is_hws c = false
                      /\ (m = p -> c <> LF)) ->
  m <= e -> occurs (lit "*/") text e ->
  (forall k, m <= k < e -> ~ occurs (lit "*/") text k) ->
  extract_doc_comment text = slice text (Z.of_nat m) (Z.of_nat e + 2).
Proof.
  intros Hlast Hmp Hrun Hbefore Hme Hclose Hfirst.
  assert (Hp : p <= length text).
  { destruct Hlast as [Ho _]. apply occurs_bound in Ho. lia. }
  unfold extract_doc_comment.
  rewrite (rfind_last _ _ _ Hlast).
  assert (E1 : (Z.of_nat p =? -1)%Z = false) by (apply Z.eqb_neq; lia).
  assert (E2 : (Z.of_nat m =? -1)%Z = false) by (apply Z.eqb_neq; lia).
  assert (E3 : (Z.of_nat e =? -1)%Z = false) by (apply Z.eqb_neq; lia).
  rewrite E1. cbn [negb]. rewrite slice_to_inside by assumption.
  rewrite (search_hws_eol_run (firstn p text) m).
  - rewrite (find_found text (lit "*/") m e Hme Hclose Hfirst).
    now rewrite E2, E3.
  - rewrite length_firstn. lia.
  - intros j c Hj Hc. rewrite nth_error_firstn in Hc.
    destruct (Nat.ltb_spec j p); [|discriminate]. apply (Hrun j); [lia|assumption].
  - destruct m as [|m']; [now left|right].
    destruct Hbefore as [Hm|(c & Hc & Hnot & Hend)]; [discriminate|].
    exists c. rewrite nth_error_firstn, length_firstn, Nat.min_l by assumption.
    destruct (Nat.ltb_spec (S m' - 1) p) as [Hlt|Hge]; [auto|lia].
Qed.

End Extractor.

Section ExtractorExamples.
Import Samples.

(** C6 at work: an unterminated comment comes back whole. *)
Lemma extract_doc_comment_fallback_witness :
  (exists p, last_at (lit "/**") unterminated_reply p
             /\ forall j, p <= j -> ~ occurs (lit "*/") unterminated_reply j)
  /\ extract_doc_comment unterminated_reply = unterminated_reply.
Proof.
  assert (H : exists p, last_at (lit "/**") unterminated_reply p
         /\ forall j, p <= j -> ~ occurs (lit "*/") unterminated_reply j).
  { exists 6. split.
    - apply rfind_index. vm_compute. reflexivity.
    - apply find_minus1; vm_compute; [lia|reflexivity]. }
  split; [exact H|].
  apply (extract_doc_comment_fallback unterminated_reply). right. exact H.
Defined.

(** C5. On the reply [chatty_reply] the extractor returns [chatty_comment]:
    the last opening marker is at index 12, the captured span starts at
    index 10 so as to take in the two blanks before it (index 9 holds a line
    feed), and it ends with the first closing marker found from there on, at
    index 38. *)
Theorem extract_doc_comment_example :
  extract_doc_comment chatty_reply = chatty_comment
  /\ last_at (lit "/**") chatty_reply 12
  /\ firstn 3 (skipn 9 chatty_reply) = [LF; SP; SP]
  /\ (occurs (lit "*/") chatty_reply 38
      /\ forall k, 10 <= k < 38 -> ~ occurs (lit "*/") chatty_reply k)
  /\ chatty_comment = slice chatty_reply 10 (38 + 2).
Proof.
  split; [vm_compute; reflexivity|].
  split; [apply rfind_index; vm_compute; reflexivity|].
  split; [reflexivity|].
  split; [|vm_compute; reflexivity].
  assert (F : find chatty_reply (lit "*/") (Z.of_nat 10) = Z.of_nat 38)
    by (vm_compute; reflexivity).
  apply find_index in F; [tauto|vm_compute; lia].
Qed.

(** An opening marker at the very start of a line: the pattern [$] also
    holds just before the line feed that ends the text searched, so the span
    takes that line feed in. *)
Lemma extract_doc_comment_at_line_start :
  extract_doc_comment (lit "Here:" ++ [LF] ++ lit "/** x */")
  = [LF] ++ lit "/** x */".
Proof. vm_compute. reflexivity. Qed.

End ExtractorExamples.

(** ** [str.replace] *)

Section Replacing.

Variables old new : str.
Hypothesis old_not_empty : old <> [].

Lemma replace_go_skip (count : Z) (k : nat) (s : str) :
  replace_go old new count k s = replace_go old new count 0 (skipn k s).
Proof.
  revert k; induction s as [|c s IH]; intros [|k]; simpl; auto.
Qed.

Lemma replace_go_absent (count : Z) (s : str) :
  absent old s -> replace_go old new count 0 s = s.
Proof.
  induction s as [|c s IH]; intros Ha; simpl; [reflexivity|].
  destruct (count =? 0)%Z; [reflexivity|].
  destruct (startswith (c :: s) old) eqn:E.
  - apply occurs_head in E. now destruct (Ha 0).
  - f_equal. apply IH. intros i Hi. apply (Ha (S i)). now apply occurs_tail.
Qed.

Lemma replace_go_exhausted (s : str) : replace_go old new 0 0 s = s.
Proof. now destruct s. Qed.

Lemma replace_go_found (count : Z) (pre post : str) :
  count <> 0%Z ->
  first_at old (pre ++ old ++ post) (length pre) ->
  replace_go old new count 0 (pre ++ old ++ post)
  = pre ++ new ++ replace_go old new (count - 1) 0 post.
Proof.
  intros Hc. apply Z.eqb_neq in Hc.
  induction pre as [|x pre IH]; intros [Ho Hfirst].
  - cbn [app]. destruct (old ++ post) as [|c t] eqn:E.
    { apply app_eq_nil in E as [E _]. contradiction. }
    cbn [replace_go]. rewrite Hc, <- E, startswith_app. f_equal.
    rewrite replace_go_skip. f_equal.
    replace t with (skipn 1 (old ++ post)) by now rewrite E.
    rewrite skipn_skipn.
    replace (length old - 1 + 1) with (length old)
      by (destruct old; [contradiction|simpl; lia]).
    now rewrite skipn_app, skipn_all, Nat.sub_diag.
  - cbn [app replace_go]. rewrite Hc.
    destruct (startswith (x :: pre ++ old ++ post) old) eqn:E.
    + apply occurs_head in E. destruct (Hfirst 0); [simpl; lia|assumption].
    + f_equal. apply IH. split.
      * apply occurs_app_here.
      * intros k Hk Hk'. apply (Hfirst (S k)); [simpl; lia|].
        now apply occurs_tail.
Qed.

Lemma replace_go_negative (c1 c2 : Z) (k : nat) (s : str) :
  (c1 < 0)%Z -> (c2 < 0)%Z ->
  replace_go old new c1 k s = replace_go old new c2 k s.
Proof.
  revert c1 c2 k; induction s as [|c s IH]; intros c1 c2 k H1 H2; simpl;
    [reflexivity|].
  destruct k as [|k]; [|now apply IH].
  destruct (Z.eqb_spec c1 0); [lia|]. destruct (Z.eqb_spec c2 0); [lia|].
  destruct (startswith (c :: s) old).
  - f_equal. apply IH; lia.
  - f_equal. now apply IH.
Qed.

(** Either [old] does not occur in [s], or [s] splits around its first
    occurrence. *)
Lemma first_occurrence_dec (s : str) :
  absent old s
  \/ exists pre post, s = pre ++ old ++ post
                      /\ first_at old s (length pre).
Proof.
  destruct (find_go old 0 s) as [j|] eqn:E.
  - right. apply find_go_some in E as (i & _ & Hf).
    destruct Hf as [Ho Hfirst]. pose proof Ho as (pre & post & -> & <-).
    exists pre, post. split; [reflexivity|now split].
  - left. exact (find_go_none _ _ _ E).
Qed.

Lemma first_at_unique (s : str) (i j : nat) :
  first_at old s i -> first_at old s j -> i = j.
Proof.
  intros [Hi Hfi] [Hj Hfj].
  destruct (Nat.lt_trichotomy i j) as [H|[H|H]]; [|assumption|].
  - now destruct (Hfj i H).
  - now destruct (Hfi j H).
Qed.

Lemma replace_nonempty (s : str) (count : Z) :
  replace s old new count = replace_go old new count 0 s.
Proof. unfold replace. destruct old; [contradiction|reflexivity]. Qed.

Lemma old_length_pos : 0 < length old.
Proof. destruct old; [contradiction|simpl; lia]. Qed.

Lemma replace_all_sound (s : str) :
  replaced_all old new s (replace s old new (-1)).
Proof.
  remember (length s) as n eqn:Hn.
  revert s Hn; induction n as [n IH] using lt_wf_ind; intros s ->.
  rewrite replace_nonempty.
  destruct (first_occurrence_dec s) as [Ha|(pre & post & -> & Hf)].
  - rewrite replace_go_absent by assumption. now constructor.
  - rewrite replace_go_found by (assumption || lia).
    constructor; [assumption|].
    rewrite (replace_go_negative (-1 - 1) (-1)) by lia.
    rewrite <- replace_nonempty.
    apply (IH (length post)); [|reflexivity].
    pose proof old_length_pos. rewrite !length_app. lia.
Qed.

Lemma replace_all_complete (s r : str) :
  replaced_all old new s r -> r = replace s old new (-1).
Proof.
  induction 1 as [s Ha|pre post r Hf _ IH].
  - now rewrite replace_nonempty, replace_go_absent.
  - rewrite replace_nonempty, replace_go_found by (assumption || lia).
    rewrite (replace_go_negative (-1 - 1) (-1)) by lia.
    now rewrite <- replace_nonempty, <- IH.
Qed.

Lemma replace_first_sound (s : str) :
  replaced_first old new s (replace s old new 1).
Proof.
  rewrite replace_nonempty.
  destruct (first_occurrence_dec s) as [Ha|(pre & post & -> & Hf)].
  - rewrite replace_go_absent by assumption. now constructor.
  - rewrite replace_go_found by (assumption || lia).
    change (1 - 1)%Z with 0%Z. rewrite replace_go_exhausted.
    now constructor.
Qed.

Lemma replaced_first_unique (s r1 r2 : str) :
  replaced_first old new s r1 -> replaced_first old new s r2 -> r1 = r2.
Proof.
  intros H1 H2. destruct H1 as [s Ha|pre post Hf].
  - inversion H2 as [s' Ha'|pre' post' Hf' E]; subst; [reflexivity|].
    destruct Hf' as [Ho _]. now destruct (Ha (length pre')).
  - inversion H2 as [s' Ha'|pre' post' Hf' E]; subst.
    + destruct Hf as [Ho _]. now destruct (Ha' (length pre)).
    + rewrite E in Hf'.
      pose proof (first_at_unique _ _ _ Hf Hf') as Hlen.
      destruct (app_same_length _ _ _ _ (eq_sym Hlen) E) as [-> E'].
      apply app_inv_head in E'. now subst.
Qed.

End Replacing.

(** ** The stream reassembler *)

Section Reassembler.
Import Samples.

Lemma collect_parts (f : str -> str) (lines : list str) (acc : list str) :
  fold_left (fun parts line => parts ++ [f line]) lines acc
  = acc ++ map f lines.
Proof.
  revert acc; induction lines as [|l lines IH]; intros acc; simpl.
  - now rewrite app_nil_r.
  - now rewrite IH, <- app_assoc.
Qed.

Lemma join_nil (parts : list str) : join [] parts = concat parts.
Proof.
  induction parts as [|p [|q parts] IH]; simpl in *; auto.
  - now rewrite app_nil_r.
  - now rewrite IH.
Qed.

Lemma reassemble_lines_concat (lines : list str) :
  reassemble_lines lines = concat (map clean_line lines).
Proof. unfold reassemble_lines. now rewrite collect_parts, join_nil. Qed.

Lemma clean_line_cleaned (line : str) : cleaned line (clean_line line).
Proof.
  exists (replace line (lit "data: ") [] 1). split.
  - apply replace_first_sound. discriminate.
  - apply replace_all_sound. discriminate.
Qed.

(** What the loop makes of the fragments: every fragment loses the first
    occurrence of ["data: "], then has every ["[h_newline]"] turned into a
    line feed; the results are concatenated in arrival order with nothing in
    between. *)
Lemma reassemble_lines_cleaned (lines : list str) :
  exists parts,
    Forall2 cleaned lines parts /\ reassemble_lines lines = concat parts.
Proof.
  exists (map clean_line lines).
  split; [|apply reassemble_lines_concat].
  induction lines as [|l lines IH]; simpl; constructor; auto.
  apply clean_line_cleaned.
Qed.

(** On a fragment that starts with the marker, and on one that does not
    contain it, the loop does what the specification words: the prefix goes
    if it is there. *)
Lemma clean_line_as_specified (line : str) :
  startswith line (lit "data: ") = true \/ absent (lit "data: ") line ->
  clean_line line = sub_h_newline (spec_strip_marker_prefix line).
Proof.
  intros H. unfold clean_line, spec_strip_marker_prefix. f_equal.
  assert (Hne : lit "data: " <> []) by discriminate.
  pose proof (replace_first_sound (lit "data: ") [] Hne line) as Hr.
  destruct (startswith line (lit "data: ")) eqn:Hs.
  - apply startswith_inv in Hs as [r ->].
    assert (Hf : replaced_first (lit "data: ") [] (lit "data: " ++ r) r).
    { apply (rf_found (lit "data: ") [] [] r).
      split; [now exists [], r|]. intros k Hk. simpl in Hk. lia. }
    rewrite (replaced_first_unique _ _ _ _ _ Hr Hf). reflexivity.
  - destruct H as [H|H]; [discriminate|].
    exact (replaced_first_unique _ _ _ _ _ Hr (rf_absent _ _ _ H)).
Qed.

(** C3. The claim fails on the fragment [" * @param data: the payload"],
    which does not start with the marker: stripping the marker prefix if
    present leaves it as it is, and it has no escape token, so the reassembled
    text is the fragment itself; the loop removes the marker from the middle
    of it.  On the two fragments of the specification, and on no fragment at
    all, the loop gives what the claim says. *)
Theorem reassemble_strips_inner_marker :
  startswith inner_marker_line (lit "data: ") = false
  /\ reassemble_lines [inner_marker_line] = lit " * @param the payload"
  /\ concat (map (fun l => sub_h_newline (spec_strip_marker_prefix l))
                 [inner_marker_line]) = inner_marker_line
  /\ reassemble_lines [inner_marker_line]
     <> concat (map (fun l => sub_h_newline (spec_strip_marker_prefix l))
                    [inner_marker_line])
  /\ reassemble_lines [lit "data: line1[h_newline]line2"; lit "data: tail"]
     = lit "line1" ++ [LF] ++ lit "line2tail"
  /\ reassemble_lines [] = [].
Proof.
  split; [reflexivity|]. split; [reflexivity|]. split; [reflexivity|].
  split; [vm_compute; discriminate|]. split; reflexivity.
Qed.

End Reassembler.

(** ** Writing the merged text back *)

Section WriteBack.



End WriteBack.

(** ** Lines: white space, comment openers and closers *)

Section Lines.

Lemma blank_nil : blank [].
Proof. intros c []. Qed.

Lemma blank_cons (c : char) (l : str) :
  blank (c :: l) <-> isspace c = true /\ blank l.
Proof.
  unfold blank. split.
  - intros H. split; [apply H; now left|]. intros x Hx. apply H. now right.
  - intros [Hc Hl] x [<-|Hx]; auto.
Qed.

Lemma blank_app (a b : str) : blank (a ++ b) <-> blank a /\ blank b.
Proof.
  unfold blank. split.
  - intros H. split; intros c Hc; apply H, in_or_app; auto.
  - intros [Ha Hb] c Hc. apply in_app_or in Hc as [Hc|Hc]; auto.
Qed.

Lemma blank_rev (l : str) : blank (rev l) <-> blank l.
Proof.
  unfold blank. split; intros H c Hc; apply H.
  - now apply -> in_rev.
  - now apply <- in_rev.
Qed.

(** [lstrip] removes a longest blank prefix. *)
Lemma lstrip_split (l : str) :
  exists ws, l = ws ++ lstrip l /\ blank ws
             /\ match lstrip l with
                | [] => True
                | c :: _ => isspace c = false
                end.
Proof.
  induction l as [|c l (ws & E & Hws & Hhead)]; simpl.
  - exists []. repeat split. apply blank_nil.
  - destruct (isspace c) eqn:Hc.
    + exists (c :: ws). simpl. split; [now rewrite <- E|].
      split; [now apply blank_cons|assumption].
    + exists []. simpl. rewrite Hc. repeat split. apply blank_nil.
Qed.

Lemma lstrip_blank (ws l : str) : blank ws -> lstrip (ws ++ l) = lstrip l.
Proof.
  induction ws as [|c ws IH]; intros H; simpl; [reflexivity|].
  apply blank_cons in H as [-> H]. now apply IH.
Qed.

Lemma lstrip_head (c : char) (l : str) :
  isspace c = false -> lstrip (c :: l) = c :: l.
Proof. intros H. simpl. now rewrite H. Qed.

Lemma lstrip_nil_iff (l : str) : lstrip l = [] <-> blank l.
Proof.
  split.
  - intros E. destruct (lstrip_split l) as (ws & El & Hws & _).
    rewrite E, app_nil_r in El. now subst.
  - intros H. rewrite <- (app_nil_r l). now rewrite lstrip_blank.
Qed.

(** [rstrip] removes a longest blank suffix. *)
Lemma rstrip_split (l : str) : exists ws, l = rstrip l ++ ws /\ blank ws.
Proof.
  unfold rstrip. destruct (lstrip_split (rev l)) as (ws & E & Hws & _).
  exists (rev ws). split; [|now apply blank_rev].
  rewrite <- rev_app_distr, <- E. now rewrite rev_involutive.
Qed.

Lemma strip_nil_iff (l : str) : strip l = [] <-> blank l.
Proof.
  unfold strip. split.
  - intros E. destruct (rstrip_split (lstrip l)) as (ws & El & Hws).
    rewrite E in El. simpl in El.
    destruct (lstrip_split l) as (ws' & El' & Hws' & _).
    rewrite El'. apply blank_app. split; [assumption|]. now rewrite El.
  - intros H. apply lstrip_nil_iff in H. rewrite H. reflexivity.
Qed.

Lemma strip_empty_test (l : str) : str_eqb (strip l) [] = true <-> blank l.
Proof. now rewrite str_eqb_eq, strip_nil_iff. Qed.

Lemma truthy_strip (l : str) : truthy (strip l) = false <-> blank l.
Proof.
  rewrite <- strip_nil_iff. destruct (strip l); simpl; split;
    congruence.
Qed.

Lemma startswith_before_blank (x ws p : str) :
  blank ws -> (forall c, In c p -> isspace c = false) ->
  startswith (x ++ ws) p = true -> startswith x p = true.
Proof.
  intros Hws. revert x; induction p as [|a p IH]; intros x Hp H;
    [reflexivity|].
  destruct x as [|y x]; simpl in *.
  - destruct ws as [|w ws]; [discriminate|].
    apply andb_true_iff in H as [H _]. apply N.eqb_eq in H. subst w.
    apply blank_cons in Hws as [Hw _].
    rewrite (Hp a) in Hw by now left. discriminate.
  - apply andb_true_iff in H as [H1 H2]. rewrite H1. simpl.
    apply IH; [|assumption]. intros c Hc. apply Hp. now right.
Qed.

Lemma startswith_extend (x y p : str) :
  startswith x p = true -> startswith (x ++ y) p = true.
Proof.
  intros H. apply startswith_inv in H as [r ->].
  rewrite <- app_assoc. apply startswith_app.
Qed.

(** The test [line.strip().startswith(p)] for a [p] without white space. *)
Lemma strip_startswith (p l : str) :
  p <> [] -> (forall c, In c p -> isspace c = false) ->
  (startswith (strip l) p = true <-> begins_with p l).
Proof.
  intros Hne Hp. unfold strip.
  destruct (rstrip_split (lstrip l)) as (ws' & E' & Hws').
  destruct (lstrip_split l) as (ws & E & Hws & _).
  split.
  - intros H. apply (startswith_extend _ ws') in H. rewrite <- E' in H.
    apply startswith_inv in H as [r Hr].
    exists ws, r. split; [|assumption]. now rewrite <- Hr.
  - intros (ws0 & rest & El & Hws0).
    apply startswith_before_blank with (ws := ws'); [assumption..|].
    rewrite <- E'. rewrite El, lstrip_blank by assumption.
    destruct p as [|a p]; [contradiction|].
    change ((a :: p) ++ rest) with (a :: p ++ rest).
    rewrite lstrip_head by (apply Hp; now left).
    change (a :: p ++ rest) with ((a :: p) ++ rest).
    apply startswith_app.
Qed.

Lemma continuation_test (l : str) :
  negb (startswith (strip l) (lit "*"))
  && negb (startswith (strip l) (lit "//")) = false
  <-> comment_continuation l.
Proof.
  unfold comment_continuation.
  rewrite <- !strip_startswith;
    try discriminate;
    try (intros c [<-|[<-|[]]]; reflexivity);
    try (intros c [<-|[]]; reflexivity).
  destruct (startswith (strip l) (lit "*")),
           (startswith (strip l) (lit "//")); simpl; intuition congruence.
Qed.

Lemma match_dots_close_iff (rest : str) :
  match_dots_close rest = true
  <-> exists b c, rest = b ++ lit "*/" ++ c /\ ~ In LF b.
Proof.
  induction rest as [|x rest IH].
  - simpl. split; [discriminate|].
    intros (b & c & E & _). destruct b; discriminate.
  - cbn [match_dots_close]. rewrite orb_true_iff, andb_true_iff, IH.
    rewrite negb_true_iff, N.eqb_neq. split.
    + intros [H|[Hx (b & c & -> & Hb)]].
      * apply startswith_inv in H as [r ->]. exists [], r. auto.
      * exists (x :: b), c. split; [reflexivity|].
        intros [E|Hin]; [now apply Hx|now apply Hb].
    + intros (b & c & E & Hb). destruct b as [|y b].
      * left. simpl in E. rewrite E. apply (startswith_app (lit "*/")).
      * right. simpl in E. injection E as -> ->. split.
        -- intros ->. apply Hb. now left.
        -- exists b, c. split; [reflexivity|].
           intros Hin. apply Hb. now right.
Qed.

Lemma search_doc_block_iff (line : str) :
  search_doc_block line = true <-> doc_block_line line.
Proof.
  unfold doc_block_line. induction line as [|x line IH].
  - simpl. split; [discriminate|].
    intros (a & b & c & E & _). destruct a; discriminate.
  - cbn [search_doc_block].
    rewrite orb_true_iff, andb_true_iff, match_dots_close_iff, IH. split.
    + intros [[H (b & c & E & Hb)]|(a & b & c & -> & Hb)].
      * apply startswith_inv in H as [r Hr]. rewrite Hr in E |- *.
        simpl in E. subst r. exists [], b, c. auto.
      * exists (x :: a), b, c. auto.
    + intros (a & b & c & E & Hb). destruct a as [|y a].
      * left. simpl in E. rewrite E. split.
        -- apply (startswith_app (lit "/**")).
        -- exists b, c. auto.
      * right. simpl in E. injection E as -> ->. exists a, b, c. auto.
Qed.

End Lines.

(** ** [insert_doc_comment] *)

Section Splice.

Lemma splitlines_from_nil (s cur : str) :
  splitlines_from cur s = [] -> s = [] /\ cur = [].
Proof.
  revert cur; induction s as [|c s IH]; intros cur; cbn [splitlines_from].
  - destruct cur; [auto|discriminate].
  - destruct (is_linebreak c); [discriminate|].
    intros H. apply IH in H as [_ H]. discriminate.
Qed.

Lemma join_cons (sep l : str) (ls : list str) :
  ls <> [] -> join sep (l :: ls) = l ++ sep ++ join sep ls.
Proof. destruct ls; [contradiction|reflexivity]. Qed.

(** Joining the lines of a normalised text gives the text back. *)
Lemma splitlines_from_join (s : str) :
  forall cur, line_normalised s ->
  join [LF] (splitlines_from cur s) = rev cur ++ s.
Proof.
  induction s as [|c s IH]; intros cur [Hbreaks Hend]; cbn [splitlines_from].
  - rewrite app_nil_r. now destruct cur.
  - assert (Hs : line_normalised s).
    { split.
      - intros x Hx. apply Hbreaks. now right.
      - intros t ->. now apply (Hend (c :: t)). }
    destruct (is_linebreak c) eqn:Hc.
    + assert (c = LF) by (apply Hbreaks; [now left|assumption]). subst c.
      change (N.eqb LF CR) with false. cbv iota.
      rewrite join_cons.
      * rewrite (IH [] Hs). reflexivity.
      * intros E. apply splitlines_from_nil in E as [-> _].
        now apply (Hend []).
    + rewrite (IH (c :: cur) Hs). simpl. now rewrite <- app_assoc.
Qed.

Lemma splitlines_join (s : str) :
  line_normalised s -> join [LF] (splitlines s) = s.
Proof. intros H. unfold splitlines. now rewrite splitlines_from_join. Qed.

Lemma join_split (sep : str) (xs ys : list str) :
  ys <> [] ->
  join sep (xs ++ ys)
  = concat (map (fun l => l ++ sep) xs) ++ join sep ys.
Proof.
  intros Hys. induction xs as [|x xs IH]; [reflexivity|].
  cbn [app map concat]. rewrite join_cons.
  - now rewrite IH, !app_assoc.
  - destruct xs; [assumption|discriminate].
Qed.

Lemma join_before (sep : str) (xs : list str) :
  join sep xs ++ (if 0 <? length xs then sep else [])
  = concat (map (fun l => l ++ sep) xs).
Proof.
  induction xs as [|x [|y xs] IH]; [reflexivity|simpl; now rewrite app_nil_r|].
  rewrite join_cons by discriminate.
  change (concat (map (fun l => l ++ sep) (x :: y :: xs)))
    with ((x ++ sep) ++ concat (map (fun l => l ++ sep) (y :: xs))).
  rewrite <- IH. cbn [length Nat.ltb Nat.leb]. now rewrite <- !app_assoc.
Qed.

(** The indentation the script captures. *)
Lemma match_ws_prefix_split (line : str) :
  line = match_ws_prefix line ++ lstrip line /\ blank (match_ws_prefix line).
Proof.
  induction line as [|c line [E H]]; simpl.
  - split; [reflexivity|apply blank_nil].
  - destruct (isspace c) eqn:Hc.
    + split; [simpl; now rewrite <- E|now apply blank_cons].
    + split; [reflexivity|apply blank_nil].
Qed.

Lemma match_ws_prefix_indentation (line : str) :
  ~ blank line -> indentation_of line (match_ws_prefix line).
Proof.
  intros Hnb. destruct (match_ws_prefix_split line) as [E Hws].
  destruct (lstrip_split line) as (_ & _ & _ & Hhead).
  destruct (lstrip line) as [|c rest] eqn:El.
  - apply lstrip_nil_iff in El. contradiction.
  - exists c, rest. auto.
Qed.

(** The search for the first line with code on it. *)
Lemma first_code_line_found (lines : list str) :
  forall idx i indent,
    first_code_line idx lines = Some (i, indent) ->
    exists blanks anchor below,
      lines = blanks ++ anchor :: below
      /\ Forall blank blanks /\ ~ blank anchor
      /\ i = idx + length blanks /\ indent = match_ws_prefix anchor.
Proof.
  induction lines as [|l lines IH]; intros idx i indent; cbn [first_code_line];
    [discriminate|].
  destruct (truthy (strip l)) eqn:Hl.
  - intros [= <- <-]. exists [], l, lines.
    repeat split; auto.
    intros Hb. apply truthy_strip in Hb. congruence.
  - intros H. apply IH in H as (blanks & anchor & below & -> & Hb & Hnb & -> & ->).
    exists (l :: blanks), anchor, below.
    split; [reflexivity|]. split.
    { constructor; [now apply truthy_strip|assumption]. }
    split; [assumption|]. split; [simpl; lia|reflexivity].
Qed.

Lemma first_code_line_none (lines : list str) :
  forall idx, first_code_line idx lines = None -> Forall blank lines.
Proof.
  induction lines as [|l lines IH]; intros idx; cbn [first_code_line];
    [constructor|].
  destruct (truthy (strip l)) eqn:Hl; [discriminate|].
  intros H. constructor; [now apply truthy_strip|now apply (IH (S idx))].
Qed.

Lemma indent_line_reindented (indent : str) (lines : list str) :
  Forall2 (reindented indent) lines (map (indent_line indent) lines).
Proof.
  induction lines as [|l lines IH]; constructor; [|assumption].
  unfold reindented, indent_line. destruct (truthy (strip l)) eqn:Hl.
  - right. split; [|reflexivity].
    intros Hb. apply truthy_strip in Hb. congruence.
  - left. split; [now apply truthy_strip|reflexivity].
Qed.

(** The merged text, line by line, for any declaration text. *)
Lemma insert_doc_comment_lines (java_code doc_comment : str) :
  exists above rest indent block,
    anchored (splitlines java_code) above rest indent
    /\ join [LF] (splitlines java_code) = above ++ rest
    /\ Forall2 (reindented indent) (splitlines doc_comment) block
    /\ insert_doc_comment java_code doc_comment
       = above ++ join [LF] block ++ [LF] ++ rest.
Proof.
  unfold insert_doc_comment.
  destruct (first_code_line 0 (splitlines java_code)) as [[i indent]|] eqn:E.
  - apply first_code_line_found in E
      as (blanks & anchor & below & El & Hb & Hnb & -> & ->).
    exists (terminated blanks), (join [LF] (anchor :: below)),
           (match_ws_prefix anchor),
           (map (indent_line (match_ws_prefix anchor)) (splitlines doc_comment)).
    split.
    { left. exists blanks, anchor, below.
      repeat split; auto. now apply match_ws_prefix_indentation. }
    split; [rewrite El; now apply join_split|].
    split; [apply indent_line_reindented|].
    rewrite El. cbn [Nat.add].
    rewrite firstn_app, firstn_all, Nat.sub_diag. cbn [firstn].
    rewrite app_nil_r.
    rewrite skipn_app, skipn_all, Nat.sub_diag. cbn [skipn app].
    rewrite app_assoc. f_equal. apply join_before.
  - apply first_code_line_none in E.
    exists [], (join [LF] (splitlines java_code)), [],
           (map (indent_line []) (splitlines doc_comment)).
    split; [right; auto|]. split; [reflexivity|].
    split; [apply indent_line_reindented|]. reflexivity.
Qed.

(** C4, amended. For a declaration text whose line terminators are all line
    feeds and which does not end with one, the merged text is the declaration
    text with the re-indented comment and one line feed inserted immediately
    before the first line that has code on it (at the very top when no line
    has): every comment line that is not blank is preceded by that line's
    leading white space, a blank comment line is kept as it is, and the
    declaration text on both sides is unchanged. *)
Theorem insert_doc_comment_spec (java_code doc_comment : str) :
  line_normalised java_code ->
  exists above rest indent block,
    java_code = above ++ rest
    /\ insert_doc_comment java_code doc_comment
       = above ++ join [LF] block ++ [LF] ++ rest
    /\ Forall2 (reindented indent) (splitlines doc_comment) block
    /\ anchored (splitlines java_code) above rest indent.
Proof.
  intros Hn.
  destruct (insert_doc_comment_lines java_code doc_comment)
    as (above & rest & indent & block & Ha & Hj & Hb & E).
  exists above, rest, indent, block.
  rewrite splitlines_join in Hj by assumption. auto.
Qed.

End Splice.

Section SpliceExamples.
Import Samples.

Lemma skipn_suffix (l a b : str) :
  l = a ++ b -> skipn (length l - length b) l = b.
Proof.
  intros ->. rewrite length_app.
  replace (length a + length b - length b) with (length a) by lia.
  now rewrite skipn_app, skipn_all, Nat.sub_diag.
Qed.

(** C4 as stated fails: the form feed between the braces of
    [formfeed_method] is a line boundary for [splitlines], and the merged
    text has a line feed in its place; the merged text is not the
    declaration text with something inserted into it. *)
Lemma insert_doc_comment_rewrites_terminators :
  insert_doc_comment formfeed_method short_comment
  = lit "/** d */" ++ [LF] ++ lit "void f() {" ++ [LF] ++ lit "}"
  /\ ~ exists above inserted rest,
         formfeed_method = above ++ rest
         /\ insert_doc_comment formfeed_method short_comment
            = above ++ inserted ++ rest.
Proof.
  split; [vm_compute; reflexivity|].
  intros (above & inserted & rest & E1 & E2).
  destruct above as [|c above].
  - simpl in E1, E2. subst rest.
    apply skipn_suffix in E2. vm_compute in E2. discriminate E2.
  - apply (f_equal (@hd_error char)) in E1, E2.
    vm_compute in E1, E2. congruence.
Qed.

Lemma insert_doc_comment_spec_witness :
  exists above rest indent block,
    indented_method = above ++ rest
    /\ insert_doc_comment indented_method spaced_comment
       = above ++ join [LF] block ++ [LF] ++ rest
    /\ Forall2 (reindented indent) (splitlines spaced_comment) block
    /\ anchored (splitlines indented_method) above rest indent.
Proof.
  apply (insert_doc_comment_spec indented_method spaced_comment).
  split.
  - intros c Hc Hb. vm_compute in Hc.
    repeat (destruct Hc as [<-|Hc]; [try reflexivity; discriminate Hb|]).
    destruct Hc.
  - intros t E. apply (f_equal (fun l => hd_error (rev l))) in E.
    rewrite rev_app_distr in E. vm_compute in E. discriminate E.
Defined.

End SpliceExamples.

(** ** The span locator *)

Section SpanLocator.

Variable source_code : str.

(** The rows the look-back visits: the five above [row], nearest first, or
    as many as there are. *)
Lemma look_back_rows (row : nat) :
  range_down (Z.of_nat row - 1) (Z.max (-1) (Z.of_nat row - 6))
  = map (fun k => Z.of_nat (row - S k)) (seq 0 (Nat.min row 5)).
Proof.
  unfold range_down.
  replace (Z.to_nat (Z.of_nat row - 1 - Z.max (-1) (Z.of_nat row - 6)))
    with (Nat.min row 5) by lia.
  apply map_ext_in. intros k Hk. apply in_seq in Hk. lia.
Qed.

Lemma look_back_seq (lines : list str) (row : nat) :
  forall n start b,
    start + n <= row ->
    look_back lines (map (fun k => Z.of_nat (row - S k)) (seq start n))
    = Some b ->
    (b = true <->
     exists k l,
       start < k <= start + n
       /\ nth_error lines (row - k) = Some l /\ doc_block_line l
       /\ forall j l', start < j < k -> nth_error lines (row - j) = Some l' ->
                       blank l' \/ comment_continuation l').
Proof.
  induction n as [|n IH]; intros start b Hrow; cbn [seq map look_back].
  - intros [= <-]. split; [discriminate|]. intros (k & _ & Hk & _). lia.
  - destruct (Z.ltb_spec (Z.of_nat (row - S start)) 0) as [Hneg|_]; [lia|].
    rewrite Nat2Z.id.
    destruct (nth_error lines (row - S start)) as [line|] eqn:Hline;
      [|discriminate].
    assert (Hstep : forall b',
      look_back lines (map (fun k => Z.of_nat (row - S k)) (seq (S start) n))
      = Some b' ->
      search_doc_block line = false ->
      blank line \/ comment_continuation line ->
      (b' = true <->
       exists k l,
         start < k <= start + S n
         /\ nth_error lines (row - k) = Some l /\ doc_block_line l
         /\ forall j l', start < j < k ->
              nth_error lines (row - j) = Some l' ->
              blank l' \/ comment_continuation l')).
    { intros b' Hb' Hno Hskip.
      rewrite (IH (S start) b' ltac:(lia) Hb'). split.
      - intros (k & l & Hk & Hl & Hdoc & Hbetween).
        exists k, l. split; [lia|]. split; [assumption|].
        split; [assumption|]. intros j l' Hj Hl'.
        destruct (Nat.eq_dec j (S start)) as [->|Hne].
        + rewrite Hline in Hl'. injection Hl' as <-. exact Hskip.
        + apply (Hbetween j); [lia|assumption].
      - intros (k & l & Hk & Hl & Hdoc & Hbetween).
        destruct (Nat.eq_dec k (S start)) as [->|Hne].
        + rewrite Hline in Hl. injection Hl as <-.
          apply search_doc_block_iff in Hdoc. congruence.
        + exists k, l. split; [lia|]. split; [assumption|].
          split; [assumption|]. intros j l' Hj. apply Hbetween. lia. }
    destruct (search_doc_block line) eqn:Hdoc.
    { intros [= <-]. split; [|reflexivity]. intros _.
      exists (S start), line. split; [lia|]. split; [assumption|].
      split; [now apply search_doc_block_iff|]. intros j l' Hj. lia. }
    destruct (str_eqb (strip line) []) eqn:Hblank.
    { intros Hb. apply Hstep; auto. left. now apply strip_empty_test. }
    destruct (negb (startswith (strip line) (lit "*"))
              && negb (startswith (strip line) (lit "//"))) eqn:Hcont.
    + intros [= <-]. split; [discriminate|].
      intros (k & l & Hk & Hl & Hd & Hbetween).
      destruct (Nat.eq_dec k (S start)) as [->|Hne].
      * rewrite Hline in Hl. injection Hl as <-.
        apply search_doc_block_iff in Hd. congruence.
      * destruct (Hbetween (S start) line ltac:(lia) Hline) as [H|H].
        -- apply strip_empty_test in H. congruence.
        -- apply continuation_test in H. congruence.
    + intros Hb. apply Hstep; auto. right. now apply continuation_test.
Qed.

(** What the look-back from [row] answers on a list of lines. *)
Lemma look_back_spec (lines : list str) (row : nat) (hd : bool) :
  look_back lines
    (range_down (Z.of_nat row - 1) (Z.max (-1) (Z.of_nat row - 6)))
  = Some hd ->
  (hd = true <-> documented_above lines row).
Proof.
  rewrite look_back_rows. intros H.
  apply look_back_seq in H; [|lia]. rewrite H. unfold documented_above.
  split; intros (k & l & Hk & Hrest); exists k, l; (split; [lia|]).
  - split; [lia|]. destruct Hrest as (Hl & Hd & Hb).
    split; [assumption|]. split; [assumption|].
    intros j l' Hj. apply Hb. lia.
  - destruct Hrest as (_ & Hl & Hd & Hb).
    split; [assumption|]. split; [assumption|].
    intros j l' Hj. apply Hb. lia.
Qed.

(** [has_doc] as [visit] computes it. *)
Lemma detect_doc_spec (row : nat) (hd : bool) :
  detect_doc source_code row = Some hd ->
  (hd = true <-> documented_above (splitlines source_code) row).
Proof. unfold detect_doc. apply look_back_spec. Qed.

End SpanLocator.

(** ** The driver *)

Section Driver.

Variable isalnum : char -> bool.
Variable parse : str -> node.

(** The token count only consults the table on the characters of the
    text. *)
Lemma count_tokens_ext (table : char -> bool) (text : str) :
  (forall c, In c text -> table c = isalnum c) ->
  count_tokens table text = count_tokens isalnum text.
Proof.
  unfold count_tokens. generalize false.
  induction text as [|c text IH]; intros in_word H; [reflexivity|].
  cbn [count_tokens_go]. unfold is_word.
  rewrite (H c) by now left.
  assert (Hrest : forall x, In x text -> table x = isalnum x)
    by (intros x Hx; apply H; now right).
  now rewrite !(fun b => IH b Hrest).
Qed.

Lemma dict_set_keys (g : dict) (k v key : str) :
  In key (map fst (dict_set g k v)) <-> In key (map fst g) \/ key = k.
Proof.
  induction g as [|[k' v'] g IH]; simpl.
  - intuition.
  - destruct (str_eqb k' k) eqn:E; simpl.
    + apply str_eqb_eq in E. subst k'. intuition.
    + rewrite IH. intuition.
Qed.

(** The loop only emits requests, each for an accepted isalnum declaration of the
    list, and every key it adds to the dictionary is the text of a
    declaration it requested. *)
Lemma generate_sound (w : world) (nodes : list decl) :
  forall k calls g evs e,
    generate isalnum w k calls g nodes = (evs, e) ->
    (forall ev, In ev evs ->
       exists d, ev = Request d /\ In d nodes /\ accepted isalnum d)
    /\ (forall g', e = Completed g' ->
          forall key, In key (map fst g') ->
            In key (map fst g)
            \/ exists d, In (Request d) evs /\ method_source d = key).
Proof.
  induction nodes as [|d nodes IH]; intros k calls g evs e; cbn [generate].
  - intros [= <- <-]. split; [intros ev []|].
    intros g' [= <-] key Hk. now left.
  - destruct (sigint w k).
    { intros [= <- <-]. split; [intros ev []|]. discriminate. }
    destruct (has_doc d) eqn:Hdoc.
    { intros H. destruct (IH _ _ _ _ _ H) as [H1 H2]. split; [|exact H2].
      intros ev Hev. destruct (H1 ev Hev) as (d' & -> & Hin & Hacc).
      exists d'. simpl. auto. }
    destruct (Nat.ltb_spec 2048 (count_tokens isalnum (method_source d))) as [Hbig|Hsmall].
    { intros H. destruct (IH _ _ _ _ _ H) as [H1 H2]. split; [|exact H2].
      intros ev Hev. destruct (H1 ev Hev) as (d' & -> & Hin & Hacc).
      exists d'. simpl. auto. }
    destruct (service w calls (method_source d)) as [llm_output| |].
    + destruct (generate isalnum w (S k) (S calls) _ nodes) as [evs' e'] eqn:Hrec.
      intros [= <- <-]. destruct (IH _ _ _ _ _ Hrec) as [H1 H2]. split.
      * intros ev [<-|Hev].
        -- exists d. simpl. repeat split; auto.
        -- destruct (H1 ev Hev) as (d' & -> & Hin & Hacc).
           exists d'. simpl. auto.
      * intros g' Hg' key Hkey.
        destruct (H2 g' Hg' key Hkey) as [Hold|(d' & Hd' & Hsrc)].
        -- apply dict_set_keys in Hold as [Hold| ->]; [now left|].
           right. exists d. simpl. auto.
        -- right. exists d'. simpl. auto.
    + intros [= <- <-]. split; [|discriminate].
      intros ev [<-|[]]. exists d. simpl. repeat split; auto.
    + intros [= <- <-]. split; [|discriminate].
      intros ev [<-|[]]. exists d. simpl. repeat split; auto.
Qed.

(** When every declaration is skipped the loop asks nothing and stores
    nothing; it ends normally unless the user interrupts it. *)
Lemma generate_all_skipped (w : world) (nodes : list decl) :
  (forall d, In d nodes ->
     has_doc d = true \/ 2048 < count_tokens isalnum (method_source d)) ->
  forall k calls g,
    (generate isalnum w k calls g nodes = ([], Completed g)
     \/ generate isalnum w k calls g nodes = ([], Cancelled))
    /\ ((forall i, i < length nodes -> sigint w (k + i) = false) ->
        generate isalnum w k calls g nodes = ([], Completed g)).
Proof.
  induction nodes as [|d nodes IH]; intros Hskip k calls g; cbn [generate].
  - auto.
  - assert (Hrest : forall d', In d' nodes ->
              has_doc d' = true \/ 2048 < count_tokens isalnum (method_source d'))
      by (intros d' Hd'; apply Hskip; now right).
    specialize (IH Hrest (S k) calls g) as [IH1 IH2].
    assert (Hquiet : (forall i, i < length (d :: nodes) ->
                        sigint w (k + i) = false) ->
                     sigint w k = false
                     /\ forall i, i < length nodes ->
                                  sigint w (S k + i) = false).
    { intros H. split.
      - rewrite <- (Nat.add_0_r k). apply H. simpl. lia.
      - intros i Hi. replace (S k + i) with (k + S i) by lia.
        apply H. simpl. lia. }
    destruct (sigint w k) eqn:Hsig.
    { split; [now right|]. intros H. apply Hquiet in H as [H _]. discriminate. }
    destruct (Hskip d (or_introl eq_refl)) as [Hdoc|Hbig].
    + rewrite Hdoc. split; [exact IH1|].
      intros H. apply IH2. now apply Hquiet.
    + destruct (has_doc d).
      * split; [exact IH1|]. intros H. apply IH2. now apply Hquiet.
      * apply Nat.ltb_lt in Hbig. rewrite Hbig. split; [exact IH1|].
        intros H. apply IH2. now apply Hquiet.
Qed.

(** A file that is read has been stored. *)
Lemma files_stored (w : world) (path java_code : str) :
  files w path = Some java_code ->
  exists raw, disk w path = Some (Stored raw)
              /\ java_code = universal_newlines raw.
Proof.
  unfold files. destruct (disk w path) as [[|raw]|]; try discriminate.
  intros [= <-]. now exists raw.
Qed.

(** The ways [main] can go once the file is read and scanned. *)
Lemma main_after_scan (args : arguments) (w : world) (java_code : str)
    (nodes : list decl) (evs : list event) (e : loop_end) :
  files w (file args) = Some java_code ->
  get_method_nodes (python w) java_code (parse java_code) = Some nodes ->
  generate isalnum w 0 0 [] nodes = (evs, e) ->
  main isalnum parse args w =
  match e with
  | Cancelled => Run (evs ++ [Stop]) (SysExit 1)
  | ServiceFailure => Run evs (SysExit 1)
  | Completed generated =>
      if writable w (output_file args)
      then Run (evs ++ [Write (output_file args)
                              (write_back java_code generated);
                        Format (output_file args)]) Finished
      else Run evs Raised
  end.
Proof.
  intros Hf Hn Hg. apply files_stored in Hf as (raw & Hd & ->).
  unfold main. rewrite Hd. cbv zeta. rewrite Hn, Hg. now destruct e.
Qed.

Lemma requests_only (evs : list event) (P : decl -> Prop) :
  (forall ev, In ev evs -> exists d, ev = Request d /\ P d) ->
  (forall p c, ~ In (Write p c) evs) /\ (forall p, ~ In (Format p) evs)
  /\ ~ In Stop evs.
Proof.
  intros H. repeat split.
  - intros p c Hin. destruct (H _ Hin) as (d & E & _). discriminate.
  - intros p Hin. destruct (H _ Hin) as (d & E & _). discriminate.
  - intros Hin. destruct (H _ Hin) as (d & E & _). discriminate.
Qed.

(** What a run writes: the text rebuilt from the dictionary its loop has
    completed with. *)
Lemma main_writes (args : arguments) (w : world) (java_code : str)
    (nodes : list decl) (p c : str) :
  files w (file args) = Some java_code ->
  get_method_nodes (python w) java_code (parse java_code) = Some nodes ->
  In (Write p c) (trace (main isalnum parse args w)) ->
  exists evs g,
    generate isalnum w 0 0 [] nodes = (evs, Completed g)
    /\ trace (main isalnum parse args w)
       = evs ++ [Write (output_file args) c; Format (output_file args)]
    /\ p = output_file args
    /\ c = write_back java_code g.
Proof.
  intros Hf Hn.
  destruct (generate isalnum w 0 0 [] nodes) as [evs e] eqn:Hg.
  rewrite (main_after_scan _ _ _ _ _ _ Hf Hn Hg).
  destruct (generate_sound _ _ _ _ _ _ _ Hg) as [Hreq _].
  destruct (requests_only evs (fun d => In d nodes /\ accepted isalnum d) Hreq)
    as (Hnw & _ & _).
  destruct e as [g| |]; [destruct (writable w (output_file args))| |];
    cbn [trace]; intros Hin.
  - apply in_app_or in Hin as [Hin|[Hin|[Hin|[]]]];
      [now destruct (Hnw p c)| |discriminate].
    injection Hin as <- <-. now exists evs, g.
  - now destruct (Hnw p c).
  - now destruct (Hnw p c).
  - apply in_app_or in Hin as [Hin|[Hin|[]]];
      [now destruct (Hnw p c)|discriminate].
Qed.

(** The requests of a run are requests of its loop. *)
Lemma main_requests (args : arguments) (w : world) (java_code : str)
    (nodes : list decl) (evs : list event) (e : loop_end) (d : decl) :
  files w (file args) = Some java_code ->
  get_method_nodes (python w) java_code (parse java_code) = Some nodes ->
  generate isalnum w 0 0 [] nodes = (evs, e) ->
  In (Request d) (trace (main isalnum parse args w)) <-> In (Request d) evs.
Proof.
  intros Hf Hn Hg. rewrite (main_after_scan _ _ _ _ _ _ Hf Hn Hg).
  destruct e as [g| |]; [destruct (writable w (output_file args))| |];
    cbn [trace]; try reflexivity.
  - rewrite in_app_iff. split; [|now left].
    intros [H|[H|[H|[]]]]; [assumption|discriminate|discriminate].
  - rewrite in_app_iff. split; [|now left].
    intros [H|[H|[]]]; [assumption|discriminate].
Qed.

(** What a completed or aborted run can contain: the requests of the loop,
    and a write only of the text rebuilt from a dictionary whose keys are
    texts of requested declarations. *)
Lemma main_trace (args : arguments) (w : world) (java_code : str)
    (nodes : list decl) :
  files w (file args) = Some java_code ->
  get_method_nodes (python w) java_code (parse java_code) = Some nodes ->
  (forall d, In (Request d) (trace (main isalnum parse args w)) ->
     In d nodes /\ accepted isalnum d)
  /\ (forall p c, In (Write p c) (trace (main isalnum parse args w)) ->
        exists g, c = write_back java_code g
                  /\ forall key, In key (map fst g) ->
                       exists d, In (Request d) (trace (main isalnum parse args w))
                                 /\ In d nodes /\ accepted isalnum d
                                 /\ method_source d = key).
Proof.
  intros Hf Hn.
  destruct (generate isalnum w 0 0 [] nodes) as [evs e] eqn:Hg.
  destruct (generate_sound _ _ _ _ _ _ _ Hg) as [Hreq Hkeys].
  assert (Hd : forall d, In (Request d) evs -> In d nodes /\ accepted isalnum d).
  { intros d Hin. destruct (Hreq _ Hin) as (d' & [= <-] & H). exact H. }
  split.
  - intros d Hin. apply Hd.
    now apply (main_requests _ _ _ _ _ _ _ Hf Hn Hg).
  - intros p c Hw.
    destruct (main_writes _ _ _ _ _ _ Hf Hn Hw) as (evs' & g & Hg' & _ & _ & ->).
    rewrite Hg in Hg'. injection Hg' as <- ->.
    exists g. split; [reflexivity|]. intros key Hkey.
    destruct (Hkeys g eq_refl key Hkey) as [[]|(d & Hin & Hsrc)].
    exists d. split; [now apply (main_requests _ _ _ _ _ _ _ Hf Hn Hg)|].
    destruct (Hd d Hin). auto.
Qed.

(** The loop over a stretch of declarations during which nobody interrupts
    and the service answers: one request for each accepted declaration, then
    the loop over the rest. *)
Lemma generate_prefix (w : world) (before rest : list decl) :
  forall k calls g,
    (forall i, i < length before -> sigint w (k + i) = false) ->
    (forall b1 x b2, before = b1 ++ x :: b2 -> acceptedb isalnum x = true ->
       exists text,
         service w (calls + length (filter (acceptedb isalnum) b1))
                 (method_source x) = Reply text) ->
    exists g',
      generate isalnum w k calls g (before ++ rest)
      = (map Request (filter (acceptedb isalnum) before)
         ++ fst (generate isalnum w (k + length before)
                   (calls + length (filter (acceptedb isalnum) before))
                   g' rest),
         snd (generate isalnum w (k + length before)
                (calls + length (filter (acceptedb isalnum) before))
                g' rest)).
Proof.
  induction before as [|d before IH]; intros k calls g Hsig Hans.
  - exists g. cbn [app length filter map]. rewrite !Nat.add_0_r.
    now destruct (generate isalnum w k calls g rest).
  - assert (Hk : sigint w k = false).
    { rewrite <- (Nat.add_0_r k). apply Hsig. simpl. lia. }
    assert (Hsig' : forall i, i < length before -> sigint w (S k + i) = false).
    { intros i Hi. replace (S k + i) with (k + S i) by lia.
      apply Hsig. simpl. lia. }
    cbn [app generate length filter]. rewrite Hk.
    replace (k + S (length before)) with (S k + length before) by lia.
    assert (Hskip : acceptedb isalnum d = false ->
              forall b1 x b2, before = b1 ++ x :: b2 ->
                acceptedb isalnum x = true ->
                exists text,
                  service w (calls + length (filter (acceptedb isalnum) b1))
                          (method_source x) = Reply text).
    { intros A b1 x b2 E Hx.
      destruct (Hans (d :: b1) x b2) as [text Ht];
        [now rewrite E|assumption|].
      cbn [filter] in Ht. rewrite A in Ht. eauto. }
    destruct (has_doc d) eqn:Hdoc.
    { assert (A : acceptedb isalnum d = false)
        by (unfold acceptedb; now rewrite Hdoc).
      rewrite A. apply IH; [exact Hsig'|exact (Hskip A)]. }
    destruct (Nat.ltb_spec 2048 (count_tokens isalnum (method_source d)))
      as [Hbig|Hsmall].
    { assert (A : acceptedb isalnum d = false).
      { unfold acceptedb. rewrite Hdoc. simpl. apply Nat.leb_gt. lia. }
      rewrite A. apply IH; [exact Hsig'|exact (Hskip A)]. }
    assert (A : acceptedb isalnum d = true).
    { unfold acceptedb. rewrite Hdoc. simpl. apply Nat.leb_le. lia. }
    rewrite A. cbn [length map].
    destruct (Hans [] d before eq_refl A) as [text Ht].
    cbn [filter length] in Ht. rewrite Nat.add_0_r in Ht. rewrite Ht.
    replace (calls + S (length (filter (acceptedb isalnum) before)))
      with (S calls + length (filter (acceptedb isalnum) before)) by lia.
    destruct (IH (S k) (S calls)
                 (dict_set g (method_source d)
                    (insert_doc_comment (method_source d)
                       (extract_doc_comment (reassemble text))))
                 Hsig') as [g' Hg'].
    { intros b1 x b2 E Hx.
      destruct (Hans (d :: b1) x b2) as [t Hx'];
        [now rewrite E|assumption|].
      cbn [filter] in Hx'. rewrite A in Hx'. cbn [length] in Hx'.
      replace (S calls + length (filter (acceptedb isalnum) b1))
        with (calls + S (length (filter (acceptedb isalnum) b1))) by lia.
      eauto. }
    exists g'. rewrite Hg'. reflexivity.
Qed.

(** The loop up to the declaration that follows [before], when nobody
    interrupts and the service answers until then. *)
Lemma generate_reaches (w : world) (before rest : list decl) :
  quiet w (length before) -> answered isalnum w before ->
  exists g',
    generate isalnum w 0 0 [] (before ++ rest)
    = (map Request (filter (acceptedb isalnum) before)
       ++ fst (generate isalnum w (length before)
                 (length (filter (acceptedb isalnum) before)) g' rest),
       snd (generate isalnum w (length before)
              (length (filter (acceptedb isalnum) before)) g' rest)).
Proof.
  intros Hq Ha.
  destruct (generate_prefix w before rest 0 0 []) as [g' Hg'].
  - intros i Hi. now apply Hq.
  - intros b1 x b2 E Hx. exact (Ha b1 x b2 E Hx).
  - exists g'. exact Hg'.
Qed.

Lemma acceptedb_true (d : decl) :
  acceptedb isalnum d = true ->
  has_doc d = false
  /\ (2048 <? count_tokens isalnum (method_source d)) = false.
Proof.
  unfold acceptedb. intros H. apply andb_prop in H as [H1 H2].
  apply negb_true_iff in H1. apply Nat.leb_le in H2.
  split; [assumption|]. apply Nat.ltb_ge. exact H2.
Qed.

Lemma no_write_among_requests (ds : list decl) (p c : str) :
  ~ In (Write p c) (map Request ds).
Proof. intros H. apply in_map_iff in H as (d & E & _). discriminate. Qed.

Lemma no_format_among_requests (ds : list decl) (p : str) :
  ~ In (Format p) (map Request ds).
Proof. intros H. apply in_map_iff in H as (d & E & _). discriminate. Qed.

(** C9. When the user's interrupt reaches the loop, at the top of an
    iteration or while the service is called, nobody having interrupted and
    the service having answered until then, [main] has made one request for
    each accepted declaration before that point (and the one under way), sends
    the stop request last, exits with a status other than zero, and neither
    writes nor formats any file. *)
Theorem cancelled_run_writes_nothing (args : arguments) (w : world)
    (java_code : str) (before after : list decl) (d : decl) :
  files w (file args) = Some java_code ->
  get_method_nodes (python w) java_code (parse java_code)
  = Some (before ++ d :: after) ->
  quiet w (length before) ->
  answered isalnum w before ->
  interrupted_at isalnum w before d ->
  trace (main isalnum parse args w)
  = map Request (filter (acceptedb isalnum) before)
    ++ (if sigint w (length before) then [] else [Request d]) ++ [Stop]
  /\ exit_status (outcome (main isalnum parse args w)) <> 0%Z
  /\ (forall p c, ~ In (Write p c) (trace (main isalnum parse args w)))
  /\ (forall p, ~ In (Format p) (trace (main isalnum parse args w))).
Proof.
  intros Hf Hn Hq Ha Hint.
  destruct (generate_reaches w before (d :: after) Hq Ha) as [g' Hg'].
  set (here := if sigint w (length before) then [] else [Request d]).
  assert (Hd : generate isalnum w (length before)
                 (length (filter (acceptedb isalnum) before)) g' (d :: after)
               = (here, Cancelled)).
  { subst here. cbn [generate].
    destruct (sigint w (length before)) eqn:Hs; [reflexivity|].
    destruct Hint as [Hint|[Hacc Hint]]; [congruence|].
    apply acceptedb_true in Hacc as [-> ->]. now rewrite Hint. }
  rewrite Hd in Hg'. cbn [fst snd] in Hg'.
  rewrite (main_after_scan _ _ _ _ _ _ Hf Hn Hg'). cbn [trace outcome].
  rewrite <- app_assoc.
  assert (Hhere : here = map Request (if sigint w (length before)
                                      then [] else [d]))
    by (subst here; now destruct (sigint w (length before))).
  split; [reflexivity|]. split; [discriminate|]. split.
  - intros p c Hin. apply in_app_or in Hin as [Hin|Hin];
      [now apply no_write_among_requests in Hin|].
    apply in_app_or in Hin as [Hin|[Hin|[]]]; [|discriminate].
    rewrite Hhere in Hin. now apply no_write_among_requests in Hin.
  - intros p Hin. apply in_app_or in Hin as [Hin|Hin];
      [now apply no_format_among_requests in Hin|].
    apply in_app_or in Hin as [Hin|[Hin|[]]]; [|discriminate].
    rewrite Hhere in Hin. now apply no_format_among_requests in Hin.
Qed.




(** C2, amended. A declaration found documented is never the subject of a
    generation request, and whatever the run writes is the source text in
    which only texts of requested declarations, all of them found
    undocumented, have been replaced.  (The text at the documented
    declaration's own span is not protected from such a replacement.) *)
Theorem documented_declaration_not_requested (args : arguments) (w : world)
    (java_code : str) (nodes : list decl) (d : decl) :
  files w (file args) = Some java_code ->
  get_method_nodes (python w) java_code (parse java_code) = Some nodes ->
  In d nodes -> has_doc d = true ->
  ~ In (Request d) (trace (main isalnum parse args w))
  /\ (forall p c, In (Write p c) (trace (main isalnum parse args w)) ->
        exists g, c = write_back java_code g
                  /\ forall key, In key (map fst g) ->
                       exists d', In (Request d')
                                     (trace (main isalnum parse args w))
                                  /\ In d' nodes /\ has_doc d' = false
                                  /\ method_source d' = key).
Proof.
  intros Hf Hn Hin Hdoc.
  destruct (main_trace args w java_code nodes Hf Hn) as [Hreq Hwrite].
  split.
  - intros Hr. destruct (Hreq d Hr) as [_ [Hfalse _]]. congruence.
  - intros p c Hw. destruct (Hwrite p c Hw) as (g & -> & Hkeys).
    exists g. split; [reflexivity|]. intros key Hkey.
    destruct (Hkeys key Hkey) as (d' & Hr & Hd' & [Hfalse _] & Hsrc).
    exists d'. auto.
Qed.

(** C8, amended. A declaration of more than 2048 tokens is never the subject
    of a generation request, and no merge result is recorded under its text:
    whatever the run writes is the source text rebuilt from the dictionary its
    loop has completed with, and that dictionary has no key equal to the
    declaration's text, nor any key of more than 2048 tokens.  (Its text is
    not protected from the replacement of a smaller text inside it.) *)
Theorem oversized_declaration_not_requested (args : arguments) (w : world)
    (java_code : str) (nodes : list decl) (d : decl) :
  files w (file args) = Some java_code ->
  get_method_nodes (python w) java_code (parse java_code) = Some nodes ->
  In d nodes -> 2048 < count_tokens isalnum (method_source d) ->
  ~ In (Request d) (trace (main isalnum parse args w))
  /\ (forall p c, In (Write p c) (trace (main isalnum parse args w)) ->
        exists evs g,
          generate isalnum w 0 0 [] nodes = (evs, Completed g)
          /\ c = write_back java_code g
          /\ ~ In (method_source d) (map fst g)
          /\ forall key, In key (map fst g) ->
                         count_tokens isalnum key <= 2048).
Proof.
  intros Hf Hn Hin Hbig.
  destruct (main_trace args w java_code nodes Hf Hn) as [Hreq _].
  split.
  - intros Hr. destruct (Hreq d Hr) as [_ [_ Hsmall]]. lia.
  - intros p c Hw.
    destruct (main_writes _ _ _ _ _ _ Hf Hn Hw) as (evs & g & Hg & _ & _ & ->).
    exists evs, g. split; [exact Hg|]. split; [reflexivity|].
    destruct (generate_sound _ _ _ _ _ _ _ Hg) as [Hevs Hkeys].
    assert (Hall : forall key, In key (map fst g) ->
                               count_tokens isalnum key <= 2048).
    { intros key Hkey.
      destruct (Hkeys g eq_refl key Hkey) as [[]|(d' & Hd' & <-)].
      destruct (Hevs _ Hd') as (d'' & [= <-] & _ & [_ Hsmall]).
      exact Hsmall. }
    split; [|exact Hall].
    intros Hkey. apply Hall in Hkey. lia.
Qed.

End Driver.

(** ** The driver on the sample files *)

Section DriverExamples.
Import Samples.

Lemma two_scan :
  get_method_nodes cpython two_java (two_parse two_java) = Some two_nodes.
Proof. vm_compute. reflexivity. Qed.

Lemma two_run :
  main ascii_isalnum two_parse two_args two_world
  = Run [Request two_method_a; Request two_method_b;
         Write (lit "Two.java") two_output; Format (lit "Two.java")]
        Finished.
Proof. vm_compute. reflexivity. Qed.

Lemma big_scan :
  get_method_nodes cpython big_java (big_parse big_java)
  = Some [big_class; big_method].
Proof. vm_compute. reflexivity. Qed.

Lemma big_run :
  main ascii_isalnum big_parse big_args big_world
  = Run [Request big_method; Write (lit "Big.java") big_output;
         Format (lit "Big.java")] Finished.
Proof. vm_compute. reflexivity. Qed.

(** When the output file cannot be opened, the run dies after its requests
    and writes nothing. *)
Lemma readonly_run :
  main ascii_isalnum two_parse two_args readonly_world
  = Run [Request two_method_a; Request two_method_b] Raised.
Proof. vm_compute. reflexivity. Qed.


(** C2 as stated fails: class [A] of [Two.java] is documented, yet the text
    written back differs from the source at its span, the comment of its
    method having been inserted there. *)
Lemma documented_span_rewritten :
  In two_class_a two_nodes
  /\ has_doc two_class_a = true
  /\ In (Write (lit "Two.java") two_output)
        (trace (main ascii_isalnum two_parse two_args two_world))
  /\ slice two_java 9 32 = method_source two_class_a
  /\ slice two_output 9 32 <> slice two_java 9 32.
Proof.
  split; [simpl; auto|]. split; [reflexivity|].
  split; [rewrite two_run; simpl; auto|].
  split; [reflexivity|]. vm_compute. discriminate.
Qed.

(** C8 as stated fails: class [A] of [Big.java] has 2059 tokens and is
    skipped, yet its text is gone from what is written, the comment of its
    method having been inserted inside it. *)
Lemma oversized_text_rewritten :
  count_tokens ascii_isalnum (method_source big_class) = 2059
  /\ In (Write (lit "Big.java") big_output)
        (trace (main ascii_isalnum big_parse big_args big_world))
  /\ slice big_java 0 2073 = method_source big_class
  /\ slice big_output 0 2073 <> method_source big_class
  /\ absent (method_source big_class) big_output.
Proof.
  split; [vm_compute; reflexivity|].
  split; [rewrite big_run; simpl; auto|].
  split; [vm_compute; reflexivity|].
  split; [vm_compute; discriminate|].
  apply rfind_minus1. vm_compute. reflexivity.
Qed.

(** C7. On [Page.java] the claim fails: class [B] starts on row 2 and the
    line above it is the import, neither blank nor the continuation of a
    comment, so no block is found by looking back from the class; the
    look-back reads the entries of [splitlines], which has one line more
    because of the form feed, finds [lines[1]] empty and [lines[0]] a whole
    block, and sets [has_doc]. *)
Theorem has_doc_misled_by_form_feed :
  get_method_nodes cpython page_java (page_parse page_java)
  = Some [page_class]
  /\ has_doc page_class = true
  /\ nth_error (parser_rows page_java) 2 = Some (method_source page_class)
  /\ nth_error (parser_rows page_java) 1 = Some (lit "import a.B;")
  /\ ~ documented_above (parser_rows page_java) 2
  /\ splitlines page_java
     = [lit "/** A */"; []; lit "import a.B;"; lit "class B {}"].
Proof.
  split; [vm_compute; reflexivity|]. split; [reflexivity|].
  split; [vm_compute; reflexivity|]. split; [vm_compute; reflexivity|].
  split; [|vm_compute; reflexivity].
  intros H.
  apply (look_back_spec (parser_rows page_java) 2 false) in H;
    [discriminate|vm_compute; reflexivity].
Qed.


Lemma cancelled_run_writes_nothing_witness :
  (trace (main ascii_isalnum two_parse two_args interrupting_world)
   = map Request (filter (acceptedb ascii_isalnum)
                         [two_class_a; two_method_a; two_class_b])
     ++ (if sigint interrupting_world 3 then [] else [Request two_method_b])
     ++ [Stop]
   /\ exit_status (outcome (main ascii_isalnum two_parse two_args
                                 interrupting_world)) <> 0%Z
   /\ (forall p c, ~ In (Write p c)
         (trace (main ascii_isalnum two_parse two_args interrupting_world)))
   /\ (forall p, ~ In (Format p)
         (trace (main ascii_isalnum two_parse two_args interrupting_world))))
  /\ (trace (main ascii_isalnum two_parse two_args impatient_world)
      = map Request (filter (acceptedb ascii_isalnum)
                            [two_class_a; two_method_a])
        ++ (if sigint impatient_world 2 then [] else [Request two_class_b])
        ++ [Stop]
      /\ exit_status (outcome (main ascii_isalnum two_parse two_args
                                    impatient_world)) <> 0%Z
      /\ (forall p c, ~ In (Write p c)
            (trace (main ascii_isalnum two_parse two_args impatient_world)))
      /\ (forall p, ~ In (Format p)
            (trace (main ascii_isalnum two_parse two_args impatient_world)))).
Proof.
  split.
  - apply (cancelled_run_writes_nothing ascii_isalnum two_parse two_args
             interrupting_world two_java
             [two_class_a; two_method_a; two_class_b] [] two_method_b).
    + reflexivity.
    + vm_compute. reflexivity.
    + intros i Hi. reflexivity.
    + intros b1 x b2 E Hx. exists (lit "data: /** first */").
      destruct b1 as [|y1 [|y2 [|y3 [|y4 b1]]]]; simpl in E;
        try discriminate; injection E as <-; subst; try discriminate Hx.
      reflexivity.
    + right. split; vm_compute; reflexivity.
  - apply (cancelled_run_writes_nothing ascii_isalnum two_parse two_args
             impatient_world two_java
             [two_class_a; two_method_a] [two_method_b] two_class_b).
    + reflexivity.
    + vm_compute. reflexivity.
    + intros [|[|i]] Hi; [reflexivity|reflexivity|simpl in Hi; lia].
    + intros b1 x b2 E Hx. exists (lit "data: /** first */").
      destruct b1 as [|y1 [|y2 [|y3 b1]]]; simpl in E;
        try discriminate; injection E as <-; subst; try discriminate Hx.
      reflexivity.
    + left. reflexivity.
Defined.


Lemma documented_declaration_not_requested_witness :
  ~ In (Request two_class_a)
       (trace (main ascii_isalnum two_parse two_args two_world)).
Proof.
  apply (documented_declaration_not_requested ascii_isalnum two_parse
           two_args two_world two_java two_nodes two_class_a).
  - reflexivity.
  - vm_compute. reflexivity.
  - simpl. auto.
  - reflexivity.
Defined.

Lemma oversized_declaration_not_requested_witness :
  ~ In (Request big_class)
       (trace (main ascii_isalnum big_parse big_args big_world))
  /\ (forall p c,
        In (Write p c)
           (trace (main ascii_isalnum big_parse big_args big_world)) ->
        exists evs g,
          generate ascii_isalnum big_world 0 0 [] [big_class; big_method]
          = (evs, Completed g)
          /\ c = write_back big_java g
          /\ ~ In (method_source big_class) (map fst g)
          /\ forall key, In key (map fst g) ->
                         count_tokens ascii_isalnum key <= 2048).
Proof.
  apply (oversized_declaration_not_requested ascii_isalnum big_parse
           big_args big_world big_java [big_class; big_method] big_class).
  - reflexivity.
  - vm_compute. reflexivity.
  - simpl. auto.
  - vm_compute. lia.
Defined.


End DriverExamples.

(** * Further properties *)

(** ** Occurrences inside a piece of a text *)

Section Windows.

Lemma occurs_nth (sub s : str) (i : nat) :
  occurs sub s i <->
  i + length sub <= length s
  /\ forall j, j < length sub -> nth_error s (i + j) = nth_error sub j.
Proof.
  split.
  - intros (pre & post & -> & <-). split.
    + rewrite !length_app. lia.
    + intros j Hj. rewrite nth_error_app2 by lia.
      replace (length pre + j - length pre) with j by lia.
      now rewrite nth_error_app1.
  - intros [Hlen Hnth].
    exists (firstn i s), (skipn (i + length sub) s).
    split; [|rewrite length_firstn; lia].
    rewrite <- (firstn_skipn i s) at 1. f_equal.
    rewrite <- (firstn_skipn (length sub) (skipn i s)) at 1.
    rewrite skipn_skipn, (Nat.add_comm (length sub) i). f_equal.
    apply nth_error_ext. intros n. rewrite nth_error_firstn.
    destruct (Nat.ltb_spec n (length sub)) as [Hn|Hn].
    + rewrite nth_error_skipn. now apply Hnth.
    + symmetry. now apply nth_error_None.
Qed.

Lemma window_length (t : str) (m len : nat) :
  m + len <= length t -> length (firstn len (skipn m t)) = len.
Proof. intros H. rewrite length_firstn, length_skipn. lia. Qed.

Lemma window_nth (t : str) (m len j : nat) :
  j < len -> nth_error (firstn len (skipn m t)) j = nth_error t (m + j).
Proof.
  intros Hj. rewrite nth_error_firstn, nth_error_skipn.
  now destruct (Nat.ltb_spec j len); [|lia].
Qed.

(** An occurrence inside the window is an occurrence in the text. *)
Lemma occurs_window_in (sub t : str) (m len k : nat) :
  m + len <= length t ->
  occurs sub (firstn len (skipn m t)) k -> occurs sub t (m + k).
Proof.
  intros Hlen Ho. apply occurs_nth in Ho as [Hb Hn].
  rewrite window_length in Hb by assumption.
  apply occurs_nth. split; [lia|]. intros j Hj.
  rewrite <- (Hn j Hj), window_nth by lia. f_equal. lia.
Qed.

(** An occurrence in the text that fits in the window is one inside it. *)
Lemma occurs_window_out (sub t : str) (m len k : nat) :
  m + len <= length t -> k + length sub <= len ->
  occurs sub t (m + k) -> occurs sub (firstn len (skipn m t)) k.
Proof.
  intros Hlen Hk Ho. apply occurs_nth in Ho as [Hb Hn].
  apply occurs_nth. rewrite window_length by assumption.
  split; [lia|]. intros j Hj.
  rewrite <- (Hn j Hj), window_nth by lia. f_equal. lia.
Qed.

Lemma window_part_of (t : str) (m len : nat) :
  part_of (firstn len (skipn m t)) t.
Proof.
  exists (firstn m t), (skipn len (skipn m t)).
  now rewrite firstn_skipn, firstn_skipn.
Qed.

Lemma occurs_in_part (sub part s : str) (i : nat) :
  part_of part s -> occurs sub part i -> exists k, occurs sub s k.
Proof.
  intros (a & b & ->) (pre & post & -> & _).
  exists (length (a ++ pre)), (a ++ pre), (post ++ b).
  split; [|reflexivity]. now rewrite <- !app_assoc.
Qed.

Lemma absent_in_part (sub part s : str) :
  part_of part s -> absent sub s -> absent sub part.
Proof.
  intros Hp Ha i Ho. destruct (occurs_in_part _ _ _ _ Hp Ho) as [k Hk].
  exact (Ha k Hk).
Qed.

Lemma last_at_unique (sub s : str) (i j : nat) :
  last_at sub s i -> last_at sub s j -> i = j.
Proof.
  intros [Hi Hli] [Hj Hlj]. apply Hli in Hj. apply Hlj in Hi. lia.
Qed.

End Windows.

(** ** More on [extract_doc_comment] *)

Section ExtractorMore.

(** The span starts where the pattern first matches. *)
Lemma extract_from_start (text : str) (p m : nat) :
  last_at (lit "/**") text p ->
  match_hws_eol (skipn m (firstn p text)) = true ->
  m <= p ->
  (forall k, k < m -> match_hws_eol (skipn k (firstn p text)) = false) ->
  extract_doc_comment text =
  (let end_ := find text (lit "*/") (Z.of_nat m) in
   if negb (end_ =? -1)%Z then slice text (Z.of_nat m) (end_ + 2)
   else text).
Proof.
  intros Hlast Hmatch Hmp Hfirst.
  assert (Hp : p <= length text).
  { destruct Hlast as [Ho _]. apply occurs_bound in Ho. lia. }
  destruct (search_hws_eol_total (firstn p text))
    as (m' & Hm' & _ & Hmatch' & Hfirst').
  assert (m' = m).
  { destruct (Nat.lt_trichotomy m' m) as [H|[H|H]]; [|assumption|].
    - rewrite (Hfirst m' H) in Hmatch'. discriminate.
    - rewrite (Hfirst' m H) in Hmatch. discriminate. }
  subst m'. unfold extract_doc_comment.
  rewrite (rfind_last _ _ _ Hlast).
  assert (E1 : (Z.of_nat p =? -1)%Z = false) by (apply Z.eqb_neq; lia).
  assert (E2 : (Z.of_nat m =? -1)%Z = false) by (apply Z.eqb_neq; lia).
  rewrite E1. cbn [negb]. rewrite slice_to_inside by assumption.
  rewrite Hm', E2. reflexivity.
Qed.

(** The three ways the extractor can go: no opening marker; an opening
    marker and no closing marker from the start of the span on; or both. *)
Lemma extract_cases (text : str) :
  (absent (lit "/**") text /\ extract_doc_comment text = text)
  \/ (exists p m,
        last_at (lit "/**") text p /\ m <= p
        /\ (forall j, m <= j -> ~ occurs (lit "*/") text j)
        /\ extract_doc_comment text = text)
  \/ (exists p m e,
        last_at (lit "/**") text p /\ m <= p /\ p < e
        /\ e + 2 <= length text
        /\ match_hws_eol (skipn m (firstn p text)) = true
        /\ occurs (lit "*/") text e
        /\ (forall k, m <= k < e -> ~ occurs (lit "*/") text k)
        /\ extract_doc_comment text = firstn (e + 2 - m) (skipn m text)).
Proof.
  destruct (rfind_result text (lit "/**")) as [[E Ha]|(p & E & Hlast)].
  { left. split; [assumption|].
    unfold extract_doc_comment. rewrite E. reflexivity. }
  right.
  assert (Hp : p <= length text).
  { destruct Hlast as [Ho _]. apply occurs_bound in Ho. lia. }
  destruct (search_hws_eol_total (firstn p text))
    as (m & Hm & Hle & Hmatch & Hfirst).
  rewrite length_firstn, Nat.min_l in Hle by assumption.
  rewrite (extract_from_start text p m Hlast Hmatch Hle Hfirst). cbv zeta.
  destruct (find_result text (lit "*/") m ltac:(lia))
    as [[-> Hn]|(e & -> & Hme & Hclose & Hnone)].
  { left. exists p, m. auto. }
  right.
  pose proof (occurs_bound _ _ _ Hclose) as Hb. simpl in Hb.
  assert (Hpe : p < e).
  { pose proof Hclose as Hstar.
    change (lit "*/") with [42; 47]%N in Hstar.
    apply occurs_first_char in Hstar.
    destruct (Nat.lt_trichotomy e p) as [Hlt|[->|Hgt]]; [| |assumption].
    - assert (Hin : In 42%N (skipn m (firstn p text))).
      { apply nth_error_In with (n := e - m).
        rewrite nth_error_skipn, nth_error_firstn.
        replace (m + (e - m)) with e by lia.
        now destruct (Nat.ltb_spec e p); [|lia]. }
      destruct (match_hws_eol_chars _ Hmatch _ Hin); discriminate.
    - destruct Hlast as [Ho _].
      change (lit "/**") with [47; 42; 42]%N in Ho.
      apply occurs_first_char in Ho. congruence. }
  exists p, m, e. do 7 (split; [assumption|]).
  destruct (Z.eqb_spec (Z.of_nat e) (-1)); [lia|]. cbn [negb].
  replace (Z.of_nat e + 2)%Z with (Z.of_nat (e + 2)) by lia.
  apply slice_inside; lia.
Qed.

(** X1. Whatever [extract_doc_comment] returns is a contiguous piece of its
    input. *)
Theorem extract_doc_comment_part_of (text : str) :
  part_of (extract_doc_comment text) text.
Proof.
  destruct (extract_cases text)
    as [[_ ->]|[(p & m & _ & _ & _ & ->)
               |(p & m & e & _ & _ & _ & _ & _ & _ & _ & ->)]].
  - exists [], []. now rewrite app_nil_r.
  - exists [], []. now rewrite app_nil_r.
  - apply window_part_of.
Qed.

(** X2. When the text has a closing marker at or after its last opening
    marker, what [extract_doc_comment] returns starts with that opening
    marker, preceded by nothing but blanks, tabs and line feeds, and ends with
    a closing marker, which is the only one in it. *)
Theorem extract_doc_comment_delimited (text : str) (p e : nat) :
  last_at (lit "/**") text p -> p <= e -> occurs (lit "*/") text e ->
  exists gap body head,
    extract_doc_comment text = gap ++ lit "/**" ++ body
    /\ extract_doc_comment text = head ++ lit "*/"
    /\ (forall c, In c gap -> is_hws c = true \/ c = LF)
    /\ (forall k, occurs (lit "*/") (extract_doc_comment text) k ->
                  k = length head).
Proof.
  intros Hlast Hpe Hclose.
  destruct (extract_cases text)
    as [[Ha _]|[(p' & m & Hlast' & Hmp & Hn & _)
               |(p' & m & e' & Hlast' & Hmp & Hpe' & Hlen & Hmatch & Hclose'
                 & Hnone & ->)]].
  - destruct Hlast as [Ho _]. now destruct (Ha p).
  - rewrite (last_at_unique _ _ _ _ Hlast' Hlast) in Hmp.
    now destruct (Hn e ltac:(lia)).
  - rewrite (last_at_unique _ _ _ _ Hlast' Hlast) in *. clear p' Hlast'.
    set (len := e' + 2 - m).
    assert (Hwin : m + len <= length text) by (unfold len; lia).
    assert (Hopen : occurs (lit "/**") (firstn len (skipn m text)) (p - m)).
    { apply occurs_window_out; [assumption|simpl; unfold len; lia|].
      replace (m + (p - m)) with p by lia. now destruct Hlast. }
    assert (Hend : occurs (lit "*/") (firstn len (skipn m text)) (e' - m)).
    { apply occurs_window_out; [assumption|simpl; unfold len; lia|].
      now replace (m + (e' - m)) with e' by lia. }
    destruct Hopen as (gap & body & Eopen & Hgap).
    destruct Hend as (head & tail & Eend & Hhead).
    assert (tail = []).
    { apply (f_equal (@length char)) in Eend.
      rewrite window_length, !length_app in Eend by assumption.
      simpl in Eend. apply length_zero_iff_nil. unfold len in Eend. lia. }
    subst tail. rewrite app_nil_r in Eend.
    exists gap, body, head. do 2 (split; [assumption|]). split.
    + intros c Hc. apply In_nth_error in Hc as [j Hj].
      assert (Hjl : j < p - m).
      { rewrite <- Hgap. apply nth_error_Some. congruence. }
      apply (match_hws_eol_chars _ Hmatch).
      apply nth_error_In with (n := j).
      rewrite nth_error_skipn, nth_error_firstn.
      destruct (Nat.ltb_spec (m + j) p); [|lia].
      rewrite <- (window_nth text m len j) by (unfold len; lia).
      rewrite Eopen, nth_error_app1 by lia. exact Hj.
    + intros k Hk. pose proof (occurs_bound _ _ _ Hk) as Hb.
      rewrite window_length in Hb by assumption. simpl in Hb.
      apply occurs_window_in in Hk; [|assumption].
      destruct (Nat.lt_ge_cases (m + k) e') as [Hlt|Hge].
      * now destruct (Hnone (m + k) ltac:(lia)).
      * unfold len in Hb. lia.
Qed.

(** X3. Extracting twice changes nothing more: [extract_doc_comment] is
    idempotent. *)
Theorem extract_doc_comment_idempotent (text : str) :
  extract_doc_comment (extract_doc_comment text) = extract_doc_comment text.
Proof.
  destruct (extract_cases text)
    as [[_ E]|[(p & m & _ & _ & _ & E)
              |(p & m & e & Hlast & Hmp & Hpe & Hlen & Hmatch & Hclose
                & Hnone & E)]]; try (rewrite E; exact E).
  rewrite E. set (len := e + 2 - m).
  assert (Hwin : m + len <= length text) by (unfold len; lia).
  set (r := firstn len (skipn m text)).
  assert (Hrlen : length r = len) by now apply window_length.
  assert (Hlast_r : last_at (lit "/**") r (p - m)).
  { split.
    - apply occurs_window_out; [assumption|simpl; unfold len; lia|].
      replace (m + (p - m)) with p by lia. now destruct Hlast.
    - intros k Hk. apply occurs_window_in in Hk; [|assumption].
      destruct Hlast as [_ Hl]. apply Hl in Hk. lia. }
  assert (Hmatch_r : match_hws_eol (skipn 0 (firstn (p - m) r)) = true).
  { unfold r. cbn [skipn]. rewrite firstn_firstn, Nat.min_l
      by (unfold len; lia).
    rewrite firstn_skipn_comm. now replace (m + (p - m)) with p by lia. }
  rewrite (extract_from_start r (p - m) 0 Hlast_r Hmatch_r ltac:(lia)
             ltac:(intros k Hk; lia)).
  cbv zeta.
  rewrite (find_found r (lit "*/") 0 (e - m)).
  - destruct (Z.eqb_spec (Z.of_nat (e - m)) (-1)); [lia|]. cbn [negb].
    replace (Z.of_nat (e - m) + 2)%Z with (Z.of_nat len)
      by (unfold len; lia).
    rewrite slice_inside by lia.
    cbn [skipn]. rewrite Nat.sub_0_r. apply firstn_all2. lia.
  - lia.
  - apply occurs_window_out; [assumption|simpl; unfold len; lia|].
    now replace (m + (e - m)) with e by lia.
  - intros k Hk Ho. apply occurs_window_in in Ho; [|assumption].
    apply (Hnone (m + k)); [lia|assumption].
Qed.

End ExtractorMore.

(** ** [count_tokens] *)

Section Tokens.

Variable isalnum : char -> bool.

Lemma count_go_le (text : str) :
  forall in_word, count_tokens_go isalnum in_word text <= length text.
Proof.
  induction text as [|c text IH]; intros in_word; cbn [count_tokens_go length];
    [lia|].
  destruct (is_word isalnum c).
  - specialize (IH true). destruct in_word; lia.
  - destruct (isspace c); [specialize (IH false); lia|].
    specialize (IH false). lia.
Qed.

Lemma ends_in_word_cons (in_word : bool) (c : char) (text : str) :
  ends_in_word isalnum in_word (c :: text)
  = ends_in_word isalnum (is_word isalnum c) text.
Proof. reflexivity. Qed.

Lemma count_go_app (a b : str) :
  forall in_word,
    count_tokens_go isalnum in_word (a ++ b)
    = count_tokens_go isalnum in_word a
      + count_tokens_go isalnum (ends_in_word isalnum in_word a) b.
Proof.
  induction a as [|c a IH]; intros in_word; [reflexivity|].
  cbn [app count_tokens_go]. rewrite ends_in_word_cons.
  destruct (is_word isalnum c) eqn:Hw.
  - rewrite IH. lia.
  - destruct (isspace c); rewrite IH; lia.
Qed.

Lemma count_go_state (b : str) :
  count_tokens_go isalnum true b <= count_tokens_go isalnum false b
  /\ count_tokens_go isalnum false b <= count_tokens_go isalnum true b + 1.
Proof.
  destruct b as [|c b]; cbn [count_tokens_go]; [lia|].
  destruct (is_word isalnum c); [lia|]. destruct (isspace c); lia.
Qed.

(** A run of white space holds no token and ends outside a word. *)
Lemma count_go_space (ws : str) :
  (forall c, In c ws -> is_word isalnum c = false /\ isspace c = true) ->
  forall in_word,
    count_tokens_go isalnum in_word ws = 0
    /\ (ws <> [] -> ends_in_word isalnum in_word ws = false).
Proof.
  induction ws as [|c ws IH]; intros H in_word; [split; [reflexivity|easy]|].
  destruct (H c (or_introl eq_refl)) as [Hw Hs].
  assert (Hrest : forall x, In x ws ->
            is_word isalnum x = false /\ isspace x = true)
    by (intros x Hx; apply H; now right).
  cbn [count_tokens_go]. rewrite ends_in_word_cons, Hw, Hs.
  destruct (IH Hrest false) as [E0 Eend]. split; [assumption|].
  intros _. destruct ws; [reflexivity|]. now apply Eend.
Qed.

(** X4. The token count never exceeds the number of characters: a text of at
    most 2048 characters is never above the threshold of the driver. *)
Theorem count_tokens_le_length (text : str) :
  count_tokens isalnum text <= length text.
Proof. apply count_go_le. Qed.

(** X5. A text has no token exactly when it consists of white space only
    (white space that is no word character). *)
Theorem count_tokens_zero_iff (text : str) :
  count_tokens isalnum text = 0
  <-> forall c, In c text -> is_word isalnum c = false /\ isspace c = true.
Proof.
  unfold count_tokens. split.
  - induction text as [|c text IH]; cbn [count_tokens_go]; [intros _ c []|].
    destruct (is_word isalnum c) eqn:Hw; [discriminate|].
    destruct (isspace c) eqn:Hs; [|discriminate].
    intros H x [<-|Hx]; auto.
  - intros H. now apply count_go_space.
Qed.

(** X6. Counting two texts put together gives the sum of their counts, or
    one less when a word runs across the seam. *)
Theorem count_tokens_app_bounds (a b : str) :
  count_tokens isalnum (a ++ b)
  <= count_tokens isalnum a + count_tokens isalnum b
  /\ count_tokens isalnum a + count_tokens isalnum b
     <= count_tokens isalnum (a ++ b) + 1.
Proof.
  unfold count_tokens. rewrite count_go_app.
  destruct (count_go_state b).
  destruct (ends_in_word isalnum false a); lia.
Qed.

(** X7. Tokens are delimited by white space and by punctuation: across a
    non-empty run of white space the counts add up, and a character that is
    neither a word character nor white space counts for one token whatever
    stands around it. *)
Theorem count_tokens_delimited (a b : str) :
  (forall ws,
      ws <> [] ->
      (forall c, In c ws -> is_word isalnum c = false /\ isspace c = true) ->
      count_tokens isalnum (a ++ ws ++ b)
      = count_tokens isalnum a + count_tokens isalnum b)
  /\ (forall c,
        is_word isalnum c = false -> isspace c = false ->
        count_tokens isalnum (a ++ [c] ++ b)
        = count_tokens isalnum a + 1 + count_tokens isalnum b).
Proof.
  unfold count_tokens. split.
  - intros ws Hne Hws. rewrite !count_go_app.
    destruct (count_go_space ws Hws (ends_in_word isalnum false a))
      as [-> Hend].
    rewrite (Hend Hne). lia.
  - intros c Hw Hs. rewrite count_go_app. cbn [app count_tokens_go].
    rewrite Hw, Hs. lia.
Qed.

End Tokens.

(** ** More on the span locator *)

Section SpanLocatorMore.

Variable py : interpreter.
Variable source_code : str.

Lemma preorder_node (type : str) (a b : nat) (p : nat * nat)
    (children : list node) :
  preorder (Node type a b p children)
  = Node type a b p children :: flat_map preorder children.
Proof. reflexivity. Qed.

Lemma visit_each_preorder (f : node -> option (list decl))
    (children : list node) :
  (forall c ds, In c children -> f c = Some ds ->
     Forall2 (scanned source_code) (filter documentable (preorder c)) ds) ->
  forall below,
    visit_each f children = Some below ->
    Forall2 (scanned source_code)
            (filter documentable (flat_map preorder children)) below.
Proof.
  induction children as [|c cs IH]; intros H below; cbn [visit_each flat_map].
  - intros [= <-]. constructor.
  - destruct (f c) as [found|] eqn:Hfound; [|discriminate].
    destruct (visit_each f cs) as [others|] eqn:Hothers; [|discriminate].
    intros [= <-]. rewrite filter_app. apply Forall2_app.
    + apply H; [now left|assumption].
    + apply IH; [|reflexivity]. intros x ds Hx. apply H. now right.
Qed.

Lemma visit_preorder (frames : nat) :
  forall n ds,
    visit py frames source_code n = Some ds ->
    Forall2 (scanned source_code) (filter documentable (preorder n)) ds.
Proof.
  induction frames as [|spare IH]; intros n ds; cbn [visit]; [discriminate|].
  destruct n as [type a b [row col] children].
  rewrite preorder_node. cbn [filter].
  unfold documentable at 1. cbn [node_type].
  destruct (is_documentable type) eqn:Hdoc.
  - destruct ((0 <? row) && (spare <? search_frames py)); [discriminate|].
    destruct (detect_doc source_code row) as [hd|] eqn:Hhd; [|discriminate].
    destruct (spare =? 0); [discriminate|].
    destruct (visit_each (visit py spare source_code) children)
      as [below|] eqn:Hb; [|discriminate].
    intros [= <-]. cbn [app]. constructor.
    + split; [exact Hhd|reflexivity].
    + apply (visit_each_preorder (visit py spare source_code) children);
        [|exact Hb].
      intros c ds' _. apply IH.
  - destruct (visit_each (visit py spare source_code) children)
      as [below|] eqn:Hb; [|discriminate].
    intros [= <-]. cbn [app].
    apply (visit_each_preorder (visit py spare source_code) children);
        [|exact Hb].
    intros c ds' _. apply IH.
Qed.

(** X8. A scan that returns lists the documentable nodes of the tree in
    pre-order, an outer declaration before the ones nested in it, one record
    for each, with the node's offsets and the text between them. *)
Theorem get_method_nodes_preorder (root : node) (ds : list decl) :
  get_method_nodes py source_code root = Some ds ->
  Forall2 (scanned source_code) (filter documentable (preorder root)) ds.
Proof. unfold get_method_nodes. apply visit_preorder. Qed.

Lemma look_back_total (lines : list str) (rows : list nat) :
  (forall r, In r rows -> r < length lines) ->
  exists b, look_back lines (map Z.of_nat rows) = Some b.
Proof.
  induction rows as [|r rows IH]; intros H; cbn [map look_back]; [eauto|].
  destruct (Z.ltb_spec (Z.of_nat r) 0); [lia|]. rewrite Nat2Z.id.
  destruct (nth_error lines r) as [line|] eqn:Hline.
  - assert (Hrest : forall x, In x rows -> x < length lines)
      by (intros x Hx; apply H; now right).
    destruct (IH Hrest) as [b Hb]. rewrite Hb.
    destruct (search_doc_block line); [eauto|].
    destruct (str_eqb (strip line) []); [eauto|].
    destruct (negb _ && negb _); eauto.
  - apply nth_error_None in Hline. specialize (H r (or_introl eq_refl)). lia.
Qed.

(** The look-back fails exactly when the row lies beyond the lines. *)
Lemma detect_doc_none_iff (row : nat) :
  detect_doc source_code row = None
  <-> length (splitlines source_code) < row.
Proof.
  unfold detect_doc. rewrite look_back_rows.
  destruct row as [|r].
  - simpl. split; [discriminate|lia].
  - replace (Nat.min (S r) 5) with (S (Nat.min r 4)) by lia.
    cbn [seq map look_back].
    destruct (Z.ltb_spec (Z.of_nat (S r - 1)) 0); [lia|]. rewrite Nat2Z.id.
    replace (S r - 1) with r by lia.
    destruct (nth_error (splitlines source_code) r) as [line|] eqn:Hline.
    + assert (Hr : r < length (splitlines source_code))
        by (apply nth_error_Some; congruence).
      destruct (look_back_total (splitlines source_code)
                  (map (fun k => S r - S k) (seq 1 (Nat.min r 4))))
        as [b Hb].
      { intros x Hx. apply in_map_iff in Hx as (k & <- & Hk). lia. }
      rewrite map_map in Hb. rewrite Hb.
      split; [|lia].
      destruct (search_doc_block line); [discriminate|].
      destruct (str_eqb (strip line) []); [discriminate|].
      destruct (negb _ && negb _); discriminate.
    + apply nth_error_None in Hline. split; [lia|reflexivity].
Qed.

Lemma in_tree_preorder (n root : node) :
  in_tree n root -> In n (preorder root).
Proof.
  induction 1 as [|m c Hin Hnc IH].
  - destruct n. rewrite preorder_node. now left.
  - destruct m as [type a b p children]. rewrite preorder_node. right.
    apply in_flat_map. exists c. split; [exact Hin|exact IH].
Qed.

Lemma visit_each_total (f : node -> option (list decl))
    (children : list node) :
  (forall c, In c children -> exists ds, f c = Some ds) ->
  exists below, visit_each f children = Some below.
Proof.
  induction children as [|c cs IH]; intros H; cbn [visit_each]; [eauto|].
  destruct (H c (or_introl eq_refl)) as [found ->].
  destruct IH as [others ->]; [|eauto].
  intros x Hx. apply H. now right.
Qed.

Lemma visit_each_fails (f : node -> option (list decl))
    (children : list node) (c : node) :
  In c children -> f c = None -> visit_each f children = None.
Proof.
  induction children as [|x cs IH]; intros Hin Hc; [destruct Hin|].
  cbn [visit_each]. destruct Hin as [->|Hin]; [now rewrite Hc|].
  rewrite (IH Hin Hc). now destruct (f x).
Qed.

Lemma height_node (type : str) (a b : nat) (p : nat * nat)
    (children : list node) :
  height (Node type a b p children)
  = S (fold_right (fun c m => Nat.max (height c) m) 0 children).
Proof. reflexivity. Qed.

Lemma height_child (children : list node) (c : node) :
  In c children ->
  height c <= fold_right (fun c m => Nat.max (height c) m) 0 children.
Proof.
  induction children as [|x cs IH]; intros Hin; [destruct Hin|].
  cbn [fold_right]. destruct Hin as [->|Hin]; [lia|].
  specialize (IH Hin). lia.
Qed.

Lemma height_reached (children : list node) (k : nat) :
  k < fold_right (fun c m => Nat.max (height c) m) 0 children ->
  exists c, In c children /\ k < height c.
Proof.
  induction children as [|x cs IH]; cbn [fold_right]; [lia|]. intros H.
  destruct (Nat.lt_ge_cases k (height x)) as [Hx|Hx].
  - exists x. split; [now left|assumption].
  - destruct IH as (c & Hin & Hc); [lia|].
    exists c. split; [now right|assumption].
Qed.

(** With frames enough for every level and for the helper calls, and rows
    within the lines, the scan returns. *)
Lemma visit_returns (frames : nat) :
  forall n,
    height n + Nat.max 1 (search_frames py) <= frames ->
    (forall m, in_tree m n -> documentable m = true ->
       fst (node_start_point m) <= length (splitlines source_code)) ->
    exists ds, visit py frames source_code n = Some ds.
Proof.
  induction frames as [|spare IH]; intros n Hfit Hrows.
  - destruct n. rewrite height_node in Hfit. lia.
  - destruct n as [type a b [row col] children].
    rewrite height_node in Hfit. cbn [visit].
    destruct (visit_each_total (visit py spare source_code) children)
      as [below Hb].
    { intros c Hc. apply IH.
      - pose proof (height_child children c Hc). lia.
      - intros m Hm. apply Hrows. now apply in_tree_below with (c := c). }
    rewrite Hb. destruct (is_documentable type) eqn:Hdoc; [|eauto].
    replace (spare <? search_frames py) with false
      by (symmetry; apply Nat.ltb_ge; lia).
    rewrite andb_false_r.
    destruct (detect_doc source_code row) as [hd|] eqn:Hhd.
    + replace (spare =? 0) with false
        by (symmetry; apply Nat.eqb_neq; lia).
      eauto.
    + apply detect_doc_none_iff in Hhd.
      specialize (Hrows (Node type a b (row, col) children)
                        (in_tree_here _) Hdoc).
      simpl in Hrows. lia.
Qed.

(** A tree with more levels than frames are left overflows the stack. *)
Lemma visit_overflows (frames : nat) :
  forall n, frames < height n -> visit py frames source_code n = None.
Proof.
  induction frames as [|spare IH]; intros n Hdeep; [reflexivity|].
  destruct n as [type a b [row col] children].
  rewrite height_node in Hdeep. cbn [visit].
  destruct (height_reached children spare) as (c & Hin & Hc); [lia|].
  rewrite (visit_each_fails _ children c Hin (IH c Hc)).
  now destruct (if is_documentable type then _ else _).
Qed.

(** A declaration that starts beyond the lines stops the scan. *)
Lemma visit_index_error (root n : node) :
  in_tree n root -> documentable n = true ->
  length (splitlines source_code) < fst (node_start_point n) ->
  forall frames, visit py frames source_code root = None.
Proof.
  induction 1 as [|m c Hin Hnc IH]; intros Hdoc Hrow frames.
  - destruct frames as [|spare]; [reflexivity|].
    destruct n as [type a b [row col] children].
    unfold documentable in Hdoc. simpl in Hdoc, Hrow. cbn [visit].
    rewrite Hdoc. apply detect_doc_none_iff in Hrow. rewrite Hrow.
    now destruct ((0 <? row) && (spare <? search_frames py)).
  - destruct frames as [|spare]; [reflexivity|].
    destruct m as [type a b [row col] children]. simpl in Hin. cbn [visit].
    rewrite (visit_each_fails _ children c Hin (IH Hdoc Hrow spare)).
    now destruct (if is_documentable type then _ else _).
Qed.

(** X9. The scan returns when the frames left cover every level of the tree
    and the helper calls of a level, and every documentable node starts on a
    row within the lines of the source.  It raises when the tree has more
    levels than frames are left, and when some documentable node starts on a
    row beyond the lines. *)
Theorem get_method_nodes_returns (root : node) :
  (height root + Nat.max 1 (search_frames py) <= frames_left py ->
   (forall n, in_tree n root -> documentable n = true ->
      fst (node_start_point n) <= length (splitlines source_code)) ->
   exists ds, get_method_nodes py source_code root = Some ds)
  /\ (frames_left py < height root ->
      get_method_nodes py source_code root = None)
  /\ ((exists n, in_tree n root /\ documentable n = true
                 /\ length (splitlines source_code)
                    < fst (node_start_point n)) ->
      get_method_nodes py source_code root = None).
Proof.
  unfold get_method_nodes. split; [apply visit_returns|].
  split; [apply visit_overflows|].
  intros (n & Hn & Hdoc & Hrow). now apply (visit_index_error root n).
Qed.

End SpanLocatorMore.

(** ** More on writing back *)

Section WriteBackMore.

Lemma replace_absent (s old new : str) (count : Z) :
  absent old s -> replace s old new count = s.
Proof.
  intros Ha. destruct old as [|c old'].
  - destruct (Ha 0). now exists [], s.
  - rewrite replace_nonempty by discriminate. now apply replace_go_absent.
Qed.

(** X10. A merge whose original text is nowhere in the buffer is skipped
    without a trace: when no recorded original text occurs in the source,
    the write-back loop yields the source unchanged. *)
Theorem write_back_untouched (java_code : str) (generated : dict) :
  (forall original merged, In (original, merged) generated ->
                           absent original java_code) ->
  write_back java_code generated = java_code.
Proof.
  unfold write_back. induction generated as [|[k v] g IH]; intros H;
    [reflexivity|].
  cbn [fold_left]. rewrite replace_absent by (apply (H k v); now left).
  apply IH. intros o m Hin. apply (H o m). now right.
Qed.



End WriteBackMore.

(** ** More on the driver *)

Section DriverMore.

Variable isalnum : char -> bool.
Variable parse : str -> node.

Lemma dict_set_in (g : dict) (k v : str) : In (k, v) (dict_set g k v).
Proof.
  induction g as [|[k' v'] g IH]; cbn [dict_set]; [now left|].
  destruct (str_eqb k' k) eqn:E.
  - apply str_eqb_eq in E. subst k'. now left.
  - now right.
Qed.

Lemma dict_set_other (g : dict) (k v k' v' : str) :
  k' <> k -> (In (k', v') (dict_set g k v) <-> In (k', v') g).
Proof.
  intros Hne. induction g as [|[k0 v0] g IH]; cbn [dict_set].
  - simpl. split; [intros [[= <- _]|[]]; contradiction|intros []].
  - destruct (str_eqb k0 k) eqn:E.
    + apply str_eqb_eq in E. subst k0. simpl.
      split; (intros [[= <- _]|H]; [contradiction|now right]).
    + simpl. rewrite IH. reflexivity.
Qed.

Lemma dict_set_keys_known (g : dict) (k v : str) :
  In k (map fst g) -> map fst (dict_set g k v) = map fst g.
Proof.
  induction g as [|[k0 v0] g IH]; cbn [dict_set map fst]; [intros []|].
  destruct (str_eqb k0 k) eqn:E; [reflexivity|].
  intros [->|Hin]; [now rewrite str_eqb_refl in E|].
  cbn [map fst]. now rewrite IH.
Qed.

Lemma dict_set_keys_new (g : dict) (k v : str) :
  ~ In k (map fst g) -> dict_set g k v = g ++ [(k, v)].
Proof.
  induction g as [|[k0 v0] g IH]; cbn [dict_set map fst]; [reflexivity|].
  intros Hn. destruct (str_eqb k0 k) eqn:E.
  - apply str_eqb_eq in E. subst k0. destruct Hn. now left.
  - cbn [app]. rewrite IH; [reflexivity|]. intros Hin. apply Hn. now right.
Qed.

Lemma dict_set_nodup (g : dict) (k v : str) :
  NoDup (map fst g) -> NoDup (map fst (dict_set g k v)).
Proof.
  intros Hnd. destruct (in_dec (list_eq_dec N.eq_dec) k (map fst g)) as [Hin|Hn].
  - now rewrite dict_set_keys_known.
  - rewrite dict_set_keys_new, map_app by assumption. simpl.
    apply NoDup_app; [assumption|repeat constructor; intros []|].
    intros a Ha [<-|[]]. contradiction.
Qed.

(** X13. Recording a merge under a text keeps the keys of the dictionary
    pairwise different and in their order of first insertion (a new key goes
    last); afterwards the text maps to the new merged text only, and every
    other entry is as before. *)
Theorem dict_set_lookup (g : dict) (k v : str) :
  NoDup (map fst g) ->
  NoDup (map fst (dict_set g k v))
  /\ (forall v', In (k, v') (dict_set g k v) <-> v' = v)
  /\ (forall k' v', k' <> k ->
        (In (k', v') (dict_set g k v) <-> In (k', v') g))
  /\ (In k (map fst g) -> map fst (dict_set g k v) = map fst g)
  /\ (~ In k (map fst g) -> dict_set g k v = g ++ [(k, v)]).
Proof.
  intros Hnd.
  split; [now apply dict_set_nodup|].
  split; [|split; [apply dict_set_other|
           split; [apply dict_set_keys_known|apply dict_set_keys_new]]].
  intros v'. split; [|intros ->; apply dict_set_in].
  pose proof (dict_set_nodup g k v Hnd) as Hnd'.
  pose proof (dict_set_in g k v) as Hin. intros Hin'.
  clear - Hnd' Hin Hin'. induction (dict_set g k v) as [|[k0 v0] l IH];
    [destruct Hin|].
  simpl in Hnd'. apply NoDup_cons_iff in Hnd' as [Hn Hnd'].
  destruct Hin as [Hin|Hin], Hin' as [Hin'|Hin'].
  - congruence.
  - injection Hin as -> ->. destruct Hn. apply in_map_iff. now exists (k, v').
  - injection Hin' as -> ->. destruct Hn. apply in_map_iff.
    now exists (k, v).
  - now apply IH.
Qed.

(** The loop keeps the keys of the dictionary pairwise different. *)
Lemma generate_nodup (w : world) (nodes : list decl) :
  forall k calls g evs g',
    NoDup (map fst g) ->
    generate isalnum w k calls g nodes = (evs, Completed g') ->
    NoDup (map fst g').
Proof.
  induction nodes as [|d nodes IH]; intros k calls g evs g' Hnd;
    cbn [generate].
  - now intros [= _ <-].
  - destruct (sigint w k); [discriminate|].
    destruct (has_doc d); [now apply IH|].
    destruct (2048 <? count_tokens isalnum (method_source d));
      [now apply IH|].
    destruct (service w calls (method_source d)); try discriminate.
    destruct (generate isalnum w (S k) (S calls) _ nodes) as [evs' e'] eqn:E.
    intros [= _ ->]. apply (IH _ _ _ _ _ (dict_set_nodup _ _ _ Hnd) E).
Qed.

(** The requests of the loop, in order. *)
Lemma generate_requests (w : world) (nodes : list decl) :
  forall k calls g evs e,
    generate isalnum w k calls g nodes = (evs, e) ->
    (exists n, evs = map Request (firstn n (filter (acceptedb isalnum) nodes)))
    /\ (forall g', e = Completed g' ->
          evs = map Request (filter (acceptedb isalnum) nodes)).
Proof.
  induction nodes as [|d nodes IH]; intros k calls g evs e; cbn [generate].
  - intros [= <- <-]. split; [now exists 0|reflexivity].
  - destruct (sigint w k).
    { intros [= <- <-]. split; [now exists 0|discriminate]. }
    destruct (has_doc d) eqn:Hdoc.
    { assert (A : acceptedb isalnum d = false)
        by (unfold acceptedb; now rewrite Hdoc).
      cbn [filter]. rewrite A. apply IH. }
    destruct (Nat.ltb_spec 2048 (count_tokens isalnum (method_source d)))
      as [Hbig|Hsmall].
    { assert (A : acceptedb isalnum d = false).
      { unfold acceptedb. rewrite Hdoc. simpl. apply Nat.leb_gt. lia. }
      cbn [filter]. rewrite A. apply IH. }
    assert (A : acceptedb isalnum d = true).
    { unfold acceptedb. rewrite Hdoc. simpl. apply Nat.leb_le. lia. }
    cbn [filter]. rewrite A.
    destruct (service w calls (method_source d)).
    + destruct (generate isalnum w (S k) (S calls) _ nodes) as [evs' e'] eqn:E.
      intros [= <- <-]. destruct (IH _ _ _ _ _ E) as [[n ->] Hall]. split.
      * now exists (S n).
      * intros g' Hg'. cbn [map]. f_equal. now apply (Hall g').
    + intros [= <- <-]. split; [now exists 1|discriminate].
    + intros [= <- <-]. split; [now exists 1|discriminate].
Qed.

(** Skipped declarations at the head of the list change nothing. *)
Lemma generate_skip_prefix (w : world) (before rest : list decl) :
  (forall d, In d before ->
     has_doc d = true \/ 2048 < count_tokens isalnum (method_source d)) ->
  forall k calls g,
    (forall i, i < length before -> sigint w (k + i) = false) ->
    generate isalnum w k calls g (before ++ rest)
    = generate isalnum w (k + length before) calls g rest.
Proof.
  induction before as [|d before IH]; intros Hskip k calls g Hsig.
  - simpl. now rewrite Nat.add_0_r.
  - cbn [app generate length].
    assert (Hk : sigint w k = false).
    { rewrite <- (Nat.add_0_r k). apply Hsig. simpl. lia. }
    rewrite Hk.
    assert (Hnext : generate isalnum w (S k) calls g (before ++ rest)
                    = generate isalnum w (k + S (length before)) calls g rest).
    { rewrite IH.
      - f_equal. lia.
      - intros x Hx. apply Hskip. now right.
      - intros i Hi. replace (S k + i) with (k + S i) by lia.
        apply Hsig. simpl. lia. }
    destruct (Hskip d (or_introl eq_refl)) as [Hdoc|Hbig].
    + now rewrite Hdoc.
    + destruct (has_doc d); [assumption|].
      apply Nat.ltb_lt in Hbig. now rewrite Hbig.
Qed.

End DriverMore.

Section DriverFacts.

Variable isalnum : char -> bool.
Variable parse : str -> node.


(** X15. The requests of a run are the accepted declarations of the scan
    (not documented, at most 2048 tokens), in scan order and without gaps:
    a first stretch of them, and all of them when the run ends normally;
    each one has been requested before anything else happens. *)
Theorem requests_follow_scan_order (args : arguments) (w : world)
    (java_code : str) (nodes : list decl) :
  files w (file args) = Some java_code ->
  get_method_nodes (python w) java_code (parse java_code) = Some nodes ->
  exists n tail,
    trace (main isalnum parse args w)
    = map Request (firstn n (filter (acceptedb isalnum) nodes)) ++ tail
    /\ (forall d, ~ In (Request d) tail)
    /\ (outcome (main isalnum parse args w) = Finished ->
        firstn n (filter (acceptedb isalnum) nodes)
        = filter (acceptedb isalnum) nodes).
Proof.
  intros Hf Hn.
  destruct (generate isalnum w 0 0 [] nodes) as [evs e] eqn:Hg.
  rewrite (main_after_scan isalnum parse _ _ _ _ _ _ Hf Hn Hg).
  destruct (generate_requests isalnum w nodes _ _ _ _ _ Hg) as [[n E] Hall].
  destruct e as [g| |]; [destruct (writable w (output_file args))| |];
    cbn [trace outcome].
  - exists (length (filter (acceptedb isalnum) nodes)).
    rewrite firstn_all. rewrite (Hall g eq_refl).
    eexists. split; [reflexivity|]. split; [|reflexivity].
    intros d [H|[H|[]]]; discriminate.
  - exists n, []. rewrite app_nil_r. split; [exact E|].
    split; [intros d []|discriminate].
  - exists n, []. rewrite app_nil_r. split; [exact E|].
    split; [intros d []|discriminate].
  - exists n, [Stop]. rewrite E. split; [reflexivity|].
    split; [|discriminate]. intros d [H|[]]. discriminate.
Qed.

(** The keys of the dictionary a completed loop ends with: those it started
    with and the texts of the accepted declarations. *)
Lemma generate_keys (w : world) (nodes : list decl) :
  forall k calls g evs g',
    generate isalnum w k calls g nodes = (evs, Completed g') ->
    forall key,
      In key (map fst g')
      <-> In key (map fst g)
          \/ exists d, In d nodes /\ acceptedb isalnum d = true
                       /\ method_source d = key.
Proof.
  induction nodes as [|d nodes IH]; intros k calls g evs g'; cbn [generate].
  - intros [= _ <-] key. split; [now left|].
    intros [H|(d & [] & _)]. exact H.
  - destruct (sigint w k); [discriminate|].
    assert (Hskip : acceptedb isalnum d = false ->
              generate isalnum w (S k) calls g nodes = (evs, Completed g') ->
              forall key,
                In key (map fst g')
                <-> In key (map fst g)
                    \/ exists x, In x (d :: nodes)
                                 /\ acceptedb isalnum x = true
                                 /\ method_source x = key).
    { intros A H key. rewrite (IH _ _ _ _ _ H key). split.
      - intros [Hk|(x & Hx & Hrest)]; [now left|].
        right. exists x. split; [now right|exact Hrest].
      - intros [Hk|(x & [<-|Hx] & Hacc & Hsrc)]; [now left|congruence|].
        right. now exists x. }
    destruct (has_doc d) eqn:Hdoc.
    { apply Hskip. unfold acceptedb. now rewrite Hdoc. }
    destruct (Nat.ltb_spec 2048 (count_tokens isalnum (method_source d)))
      as [Hbig|Hsmall].
    { apply Hskip. unfold acceptedb. rewrite Hdoc. simpl.
      apply Nat.leb_gt. lia. }
    assert (A : acceptedb isalnum d = true).
    { unfold acceptedb. rewrite Hdoc. simpl. apply Nat.leb_le. lia. }
    destruct (service w calls (method_source d)); try discriminate.
    destruct (generate isalnum w (S k) (S calls) _ nodes) as [evs' e'] eqn:E.
    intros [= _ ->] key. rewrite (IH _ _ _ _ _ E key).
    rewrite (dict_set_keys parse). split.
    + intros [[Hk| ->]|(x & Hx & Hrest)].
      * now left.
      * right. exists d. split; [now left|]. now split.
      * right. exists x. split; [now right|exact Hrest].
    + intros [Hk|(x & [<-|Hx] & Hacc & Hsrc)].
      * left. now left.
      * left. right. now symmetry.
      * right. now exists x.
Qed.

(** X16. The text a run writes is rebuilt from the dictionary its loop has
    completed with, and the original texts of that dictionary are pairwise
    different: they are the texts of the accepted declarations, each a key
    once, however many declarations share it. *)
Theorem merges_have_distinct_originals (args : arguments) (w : world)
    (java_code : str) (nodes : list decl) :
  files w (file args) = Some java_code ->
  get_method_nodes (python w) java_code (parse java_code) = Some nodes ->
  forall p c, In (Write p c) (trace (main isalnum parse args w)) ->
  exists evs generated,
    generate isalnum w 0 0 [] nodes = (evs, Completed generated)
    /\ c = write_back java_code generated
    /\ NoDup (map fst generated)
    /\ (forall key,
          In key (map fst generated)
          <-> exists d, In d nodes /\ acceptedb isalnum d = true
                        /\ method_source d = key).
Proof.
  intros Hf Hn p c Hw.
  destruct (main_writes isalnum parse _ _ _ _ _ _ Hf Hn Hw)
    as (evs & g & Hg & _ & _ & ->).
  exists evs, g. split; [exact Hg|]. split; [reflexivity|]. split.
  - eapply generate_nodup; [|exact Hg]. constructor.
  - intros key. rewrite (generate_keys _ _ _ _ _ _ _ Hg key).
    split; [intros [[]|H]; exact H|now right].
Qed.

(** X17. When the service fails on a request, nobody having interrupted and
    every earlier request having been answered, the run ends there with
    status 1: one request for each accepted declaration up to the failed one,
    which is its last event; no stop request is sent and nothing is written
    or formatted, whatever had been generated before. *)
Theorem failed_request_ends_run (args : arguments) (w : world)
    (java_code : str) (before after : list decl) (d : decl) :
  files w (file args) = Some java_code ->
  get_method_nodes (python w) java_code (parse java_code)
  = Some (before ++ d :: after) ->
  quiet w (S (length before)) ->
  answered isalnum w before ->
  acceptedb isalnum d = true ->
  service w (length (filter (acceptedb isalnum) before)) (method_source d)
  = Failed ->
  main isalnum parse args w
  = Run (map Request (filter (acceptedb isalnum) before) ++ [Request d])
        (SysExit 1).
Proof.
  intros Hf Hn Hq Ha Hacc Hfail.
  destruct (generate_reaches isalnum w before (d :: after)) as [g' Hg'];
    [intros i Hi; apply Hq; lia|exact Ha|].
  assert (Hd : generate isalnum w (length before)
                 (length (filter (acceptedb isalnum) before)) g' (d :: after)
               = ([Request d], ServiceFailure)).
  { cbn [generate]. rewrite (Hq (length before)) by lia.
    apply (acceptedb_true isalnum) in Hacc as [-> ->]. now rewrite Hfail. }
  rewrite Hd in Hg'. cbn [fst snd] in Hg'.
  exact (main_after_scan isalnum parse _ _ _ _ _ _ Hf Hn Hg').
Qed.

(** X18. End to end, for a file in which one declaration is accepted and all
    others are skipped: if the scan returns, nobody interrupts, the service
    answers, the output file can be written, and the declaration's text
    occurs once in the file, the run makes that one request and writes the
    file with the merged text in the place of the declaration and everything
    around it unchanged. *)
Theorem single_declaration_documented (args : arguments) (w : world)
    (java_code pre post llm_output : str) (before after : list decl)
    (d : decl) :
  files w (file args) = Some java_code ->
  get_method_nodes (python w) java_code (parse java_code)
  = Some (before ++ d :: after) ->
  (forall x, In x (before ++ after) ->
     has_doc x = true \/ 2048 < count_tokens isalnum (method_source x)) ->
  accepted isalnum d ->
  (forall k, k < length (before ++ d :: after) -> sigint w k = false) ->
  service w 0 (method_source d) = Reply llm_output ->
  writable w (output_file args) = true ->
  method_source d <> [] ->
  java_code = pre ++ method_source d ++ post ->
  first_at (method_source d) java_code (length pre) ->
  absent (method_source d) post ->
  main isalnum parse args w
  = Run [Request d;
         Write (output_file args)
               (pre ++ insert_doc_comment (method_source d)
                         (extract_doc_comment (reassemble llm_output))
                ++ post);
         Format (output_file args)] Finished.
Proof.
  intros Hf Hn Hskip [Hdoc Hsmall] Hsig Hreply Hw Hne Hjava Hfirst Hpost.
  set (merged := insert_doc_comment (method_source d)
                   (extract_doc_comment (reassemble llm_output))).
  assert (Hg : generate isalnum w 0 0 [] (before ++ d :: after)
               = ([Request d],
                  Completed [(method_source d, merged)])).
  { rewrite generate_skip_prefix.
    - cbn [generate]. rewrite Hsig by (rewrite length_app; simpl; lia).
      rewrite Hdoc.
      destruct (Nat.ltb_spec 2048 (count_tokens isalnum (method_source d)));
        [lia|].
      rewrite Hreply. fold merged. cbn [dict_set].
      destruct (generate_all_skipped isalnum w after) with
        (k := S (0 + length before)) (calls := 1)
        (g := [(method_source d, merged)]) as [_ Hdone].
      + intros x Hx. apply Hskip, in_or_app. now right.
      + rewrite Hdone; [reflexivity|].
        intros i Hi. apply Hsig. rewrite length_app. simpl. lia.
    - intros x Hx. apply Hskip, in_or_app. now left.
    - intros i Hi. apply Hsig. rewrite length_app. simpl. lia. }
  rewrite (main_after_scan isalnum parse _ _ _ _ _ _ Hf Hn Hg). rewrite Hw.
  cbn [app]. do 3 f_equal. unfold write_back. cbn [fold_left].
  rewrite Hjava in Hfirst |- *.
  rewrite replace_nonempty, replace_go_found by (assumption || lia).
  now rewrite replace_go_absent.
Qed.

End DriverFacts.

(** ** More on the stream reassembler *)

Section ReassemblerMore.

(** Replacing every occurrence by a character the pattern does not have
    leaves no occurrence behind. *)
Lemma replaced_all_absent (old : str) (c : char) (s r : str) :
  old <> [] -> ~ In c old ->
  replaced_all old [c] s r -> absent old r.
Proof.
  intros Hne Hc. induction 1 as [s Ha|pre post r [_ Hfirst] _ IH];
    [assumption|].
  intros i Ho.
  assert (Hpos : 0 < length old) by (destruct old; [contradiction|simpl; lia]).
  destruct (Nat.le_gt_cases (i + length old) (length pre)) as [Hin|Hout].
  - apply (Hfirst i); [lia|].
    apply occurs_nth in Ho as [Hb Hn]. apply occurs_nth. split.
    + rewrite !length_app. lia.
    + intros j Hj. rewrite <- (Hn j Hj).
      now rewrite !nth_error_app1 by lia.
  - destruct (Nat.le_gt_cases i (length pre)) as [Hle|Hgt].
    + apply occurs_nth in Ho as [_ Hn].
      specialize (Hn (length pre - i) ltac:(lia)).
      replace (i + (length pre - i)) with (length pre) in Hn by lia.
      rewrite nth_error_app2, Nat.sub_diag in Hn by lia. simpl in Hn.
      apply Hc. eapply nth_error_In. symmetry. exact Hn.
    + apply (IH (i - length pre - 1)).
      replace i with (length (pre ++ [c]) + (i - length pre - 1)) in Ho
        by (rewrite length_app; simpl; lia).
      change (pre ++ [c] ++ r) with (pre ++ ([c] ++ r)) in Ho.
      rewrite app_assoc in Ho. now apply occurs_skip in Ho.
Qed.

(** X19. No escape token is left in a processed fragment. *)
Theorem clean_line_has_no_token (line : str) :
  absent (lit "[h_newline]") (clean_line line).
Proof.
  unfold clean_line, sub_h_newline.
  apply replaced_all_absent with (c := LF)
    (s := replace line (lit "data: ") [] 1).
  - discriminate.
  - vm_compute. intuition discriminate.
  - apply replace_all_sound. discriminate.
Qed.

(** X20. A stream can be cut anywhere between two fragments: reassembling
    the two parts and putting the results together gives what reassembling
    the whole gives. *)
Theorem reassemble_lines_app (first rest : list str) :
  reassemble_lines (first ++ rest)
  = reassemble_lines first ++ reassemble_lines rest.
Proof. now rewrite !reassemble_lines_concat, map_app, concat_app. Qed.

(** The lines [splitlines] gives are pieces of the text and hold no line
    boundary. *)
Lemma splitlines_from_lines (s : str) :
  forall cur,
    (forall c, In c cur -> is_linebreak c = false) ->
    forall l, In l (splitlines_from cur s) ->
      (forall c, In c l -> is_linebreak c = false)
      /\ part_of l (rev cur ++ s).
Proof.
  remember (length s) as n eqn:Hn. revert s Hn.
  induction n as [n IH] using lt_wf_ind. intros s -> cur Hcur l.
  destruct s as [|c s]; cbn [splitlines_from].
  - destruct cur as [|x cur]; [intros []|]. intros [<-|[]]. split.
    + intros c Hc. apply Hcur. now apply in_rev.
    + exists [], []. now rewrite !app_nil_r.
  - assert (Hhere : (forall x, In x (rev cur) -> is_linebreak x = false)
                    /\ part_of (rev cur) (rev cur ++ c :: s)).
    { split.
      - intros x Hx. apply Hcur. now apply in_rev.
      - exists [], (c :: s). reflexivity. }
    assert (Hlater : forall t u,
              c :: s = u ++ t -> length t < length (c :: s) ->
              In l (splitlines_from [] t) ->
              (forall x, In x l -> is_linebreak x = false)
              /\ part_of l (rev cur ++ c :: s)).
    { intros t u Et Hlt Hl.
      destruct (IH (length t) Hlt t eq_refl [] ltac:(intros ? []) l Hl)
        as [Hchars (a & b & Eab)].
      split; [assumption|]. simpl in Eab.
      exists (rev cur ++ u ++ a), b. rewrite Et, Eab.
      now rewrite <- !app_assoc. }
    destruct (is_linebreak c) eqn:Hc.
    + intros [<-|Hl]; [exact Hhere|].
      destruct (N.eqb c CR).
      * destruct s as [|d s'].
        -- apply (Hlater [] [c]); [reflexivity|simpl; lia|assumption].
        -- destruct (N.eqb d LF).
           ++ apply (Hlater s' [c; d]); [reflexivity|simpl; lia|assumption].
           ++ apply (Hlater (d :: s') [c]); [reflexivity|simpl; lia|assumption].
      * apply (Hlater s [c]); [reflexivity|simpl; lia|assumption].
    + intros Hl.
      destruct (IH (length s) ltac:(simpl; lia) s eq_refl (c :: cur)) with (l := l)
        as [Hchars Hpart]; [|assumption|].
      * intros x [<-|Hx]; auto.
      * split; [assumption|]. simpl in Hpart.
        now rewrite <- app_assoc in Hpart.
Qed.

Lemma splitlines_lines (s l : str) :
  In l (splitlines s) ->
  (forall c, In c l -> is_linebreak c = false) /\ part_of l s.
Proof.
  intros H. apply (splitlines_from_lines s [] ltac:(intros ? []) l H).
Qed.

(** X21. A response that holds neither the marker nor the escape token is
    flattened: the reassembled text is the lines of the response put end to
    end, with no line boundary left in it. *)
Theorem reassemble_flattens (llm_output : str) :
  absent (lit "data: ") llm_output ->
  absent (lit "[h_newline]") llm_output ->
  reassemble llm_output = concat (splitlines llm_output)
  /\ forall c, In c (reassemble llm_output) -> is_linebreak c = false.
Proof.
  intros Hmarker Htoken.
  assert (E : reassemble llm_output = concat (splitlines llm_output)).
  { unfold reassemble. rewrite reassemble_lines_concat. f_equal.
    rewrite <- (map_id (splitlines llm_output)) at 2.
    apply map_ext_in. intros l Hl.
    destruct (splitlines_lines _ _ Hl) as [_ Hpart].
    unfold clean_line, sub_h_newline.
    rewrite (replace_absent l (lit "data: "))
      by (eapply absent_in_part; eassumption).
    apply replace_absent. eapply absent_in_part; eassumption. }
  split; [exact E|]. rewrite E. intros c Hc.
  apply in_concat in Hc as (l & Hl & Hc).
  destruct (splitlines_lines _ _ Hl) as [Hchars _]. now apply Hchars.
Qed.

End ReassemblerMore.

(** ** More on [insert_doc_comment] *)

Section SpliceMore.

Lemma linebreak_isspace (c : char) :
  is_linebreak c = true -> isspace c = true.
Proof.
  intros H. unfold is_linebreak, mem in H. cbn [existsb] in H.
  rewrite !orb_true_iff, !N.eqb_eq in H.
  intuition (subst; try reflexivity; try discriminate).
Qed.

Lemma splitlines_from_first (s : str) :
  forall cur, cur <> [] ->
  exists l ls, splitlines_from cur s = (rev cur ++ l) :: ls.
Proof.
  induction s as [|c s IH]; intros cur Hcur; cbn [splitlines_from].
  - destruct cur; [contradiction|]. exists [], []. now rewrite app_nil_r.
  - destruct (is_linebreak c).
    + exists []. rewrite app_nil_r. eauto.
    + destruct (IH (c :: cur) ltac:(discriminate)) as (l & ls & ->).
      exists (c :: l), ls. simpl. now rewrite <- app_assoc.
Qed.

Lemma indent_line_nil (l : str) : indent_line [] l = l.
Proof. unfold indent_line. now destruct (truthy (strip l)). Qed.

(** X22. For a declaration text that starts with something other than white
    space, as the text of a syntax node does, there is no indentation to
    match: the merged text is the comment's lines, a line feed, and the
    declaration's lines, all joined by line feeds; it is the comment, a line
    feed and the declaration text when both texts are normalised. *)
Theorem insert_doc_comment_unindented (c : char) (rest doc_comment : str) :
  isspace c = false ->
  insert_doc_comment (c :: rest) doc_comment
  = join [LF] (splitlines doc_comment) ++ [LF]
    ++ join [LF] (splitlines (c :: rest))
  /\ (line_normalised (c :: rest) -> line_normalised doc_comment ->
      insert_doc_comment (c :: rest) doc_comment
      = doc_comment ++ [LF] ++ c :: rest).
Proof.
  intros Hc.
  assert (E : insert_doc_comment (c :: rest) doc_comment
              = join [LF] (splitlines doc_comment) ++ [LF]
                ++ join [LF] (splitlines (c :: rest))).
  { assert (Hsl : exists l ls, splitlines (c :: rest) = (c :: l) :: ls).
    { unfold splitlines. cbn [splitlines_from].
      destruct (is_linebreak c) eqn:Hb.
      { apply linebreak_isspace in Hb. congruence. }
      destruct (splitlines_from_first rest [c] ltac:(discriminate))
        as (l & ls & ->). now exists l, ls. }
    destruct Hsl as (l & ls & Hsl).
    unfold insert_doc_comment. rewrite Hsl. cbn [first_code_line].
    assert (Ht : truthy (strip (c :: l)) = true).
    { destruct (truthy (strip (c :: l))) eqn:Ht; [reflexivity|].
      apply truthy_strip in Ht. apply blank_cons in Ht as [Ht _]. congruence. }
    rewrite Ht. cbn [match_ws_prefix]. rewrite Hc.
    cbn [firstn skipn]. change (join [LF] []) with (@nil char).
    change (0 <? 0) with false. cbn [app].
    f_equal. rewrite <- (map_id (splitlines doc_comment)) at 2.
    f_equal. apply map_ext. apply indent_line_nil. }
  split; [exact E|]. intros Hj Hd.
  now rewrite E, !splitlines_join.
Qed.

Lemma join_chars (sep : str) (ls : list str) (c : char) :
  In c (join sep ls) -> In c sep \/ exists l, In l ls /\ In c l.
Proof.
  induction ls as [|p [|q ls] IH]; cbn [join].
  - intros [].
  - intros H. right. exists p. split; [now left|assumption].
  - intros H. apply in_app_or in H as [H|H].
    + right. exists p. split; [now left|assumption].
    + apply in_app_or in H as [H|H]; [now left|].
      destruct (IH H) as [Hs|(l & Hl & Hc)]; [now left|].
      right. exists l. split; [now right|assumption].
Qed.

Lemma terminated_chars (ls : list str) (c : char) :
  In c (terminated ls) -> c = LF \/ exists l, In l ls /\ In c l.
Proof.
  unfold terminated. intros H. apply in_concat in H as (x & Hx & Hc).
  apply in_map_iff in Hx as (l & <- & Hl).
  apply in_app_or in Hc as [Hc|[<-|[]]]; [|now left].
  right. now exists l.
Qed.

Lemma Forall2_in_right {A B : Type} (R : A -> B -> Prop)
    (xs : list A) (ys : list B) (y : B) :
  Forall2 R xs ys -> In y ys -> exists x, In x xs /\ R x y.
Proof.
  induction 1 as [|x y0 xs ys Hxy _ IH]; [intros []|].
  intros [<-|Hin].
  - exists x. split; [now left|assumption].
  - destruct (IH Hin) as (x' & Hx' & HR). exists x'. split; [now right|assumption].
Qed.

(** X26. For every declaration text, normalised or not, the merged text is
    made of the declaration's lines, as [splitlines] gives them, joined by
    line feeds, with the re-indented comment lines and one line feed put
    immediately before the first line that has code on it. *)
Theorem insert_doc_comment_any_text (java_code doc_comment : str) :
  exists above rest indent block,
    anchored (splitlines java_code) above rest indent
    /\ join [LF] (splitlines java_code) = above ++ rest
    /\ Forall2 (reindented indent) (splitlines doc_comment) block
    /\ insert_doc_comment java_code doc_comment
       = above ++ join [LF] block ++ [LF] ++ rest.
Proof. apply insert_doc_comment_lines. Qed.

(** X27. The merged text has no line boundary other than line feeds: every
    form feed, carriage return or other separator of the declaration or of
    the comment has gone. *)
Theorem insert_doc_comment_only_line_feeds (java_code doc_comment : str)
    (c : char) :
  is_linebreak c = true -> c <> LF ->
  ~ In c (insert_doc_comment java_code doc_comment).
Proof.
  intros Hbreak Hnot Hin. apply Hnot. revert Hin Hbreak. clear Hnot.
  intros Hin Hbreak.
  destruct (insert_doc_comment_lines java_code doc_comment)
    as (above & rest & indent & block & Ha & _ & Hb & E).
  rewrite E in Hin. clear E.
  assert (Hline : forall l, In l (splitlines java_code) -> ~ In c l).
  { intros l Hl Hc. destruct (splitlines_lines _ _ Hl) as [H _].
    rewrite (H c Hc) in Hbreak. discriminate. }
  assert (Hdoc : forall l, In l (splitlines doc_comment) -> ~ In c l).
  { intros l Hl Hc. destruct (splitlines_lines _ _ Hl) as [H _].
    rewrite (H c Hc) in Hbreak. discriminate. }
  assert (Hparts : (above = [] \/ exists blanks,
                      above = terminated blanks
                      /\ forall l, In l blanks -> In l (splitlines java_code))
                   /\ (exists ls, rest = join [LF] ls
                       /\ forall l, In l ls -> In l (splitlines java_code))
                   /\ ~ In c indent).
  { destruct Ha as [(blanks & anchor & below & El & _ & _ & Hind & -> & ->)
                   |(_ & -> & -> & ->)].
    - split; [right; exists blanks; split; [reflexivity|]|split].
      + intros l Hl. rewrite El. apply in_or_app. now left.
      + exists (anchor :: below). split; [reflexivity|].
        intros l Hl. rewrite El. apply in_or_app. now right.
      + destruct Hind as (c0 & r & Eanchor & _ & _). intros Hc.
        apply (Hline anchor).
        * rewrite El. apply in_or_app. right. now left.
        * rewrite Eanchor. apply in_or_app. now left.
    - split; [now left|split; [|intros []]].
      exists (splitlines java_code). auto. }
  destruct Hparts as (Habove & (ls & -> & Hls) & Hindent).
  apply in_app_or in Hin as [Hin|Hin].
  { destruct Habove as [->|(blanks & -> & Hblanks)]; [destruct Hin|].
    apply terminated_chars in Hin as [->|(l & Hl & Hc)]; [reflexivity|].
    now destruct (Hline l (Hblanks l Hl)). }
  apply in_app_or in Hin as [Hin|Hin].
  { apply join_chars in Hin as [[<-|[]]|(l' & Hl' & Hc)]; [reflexivity|].
    destruct (Forall2_in_right _ _ _ _ Hb Hl') as (l & Hl & [[_ ->]|[_ ->]]).
    - now destruct (Hdoc l Hl).
    - apply in_app_or in Hc as [Hc|Hc]; [contradiction|].
      now destruct (Hdoc l Hl). }
  apply in_app_or in Hin as [[<-|[]]|Hin]; [reflexivity|].
  apply join_chars in Hin as [[<-|[]]|(l & Hl & Hc)]; [reflexivity|].
  now destruct (Hline l (Hls l Hl)).
Qed.

End SpliceMore.

(** ** The service call and the formatter *)

Section ServiceAndFormatter.

Variable isalnum : char -> bool.
Variable parse : str -> node.

(** X23. The request [call_deepseek] posts carries the declaration text
    verbatim inside its prompt, and it determines both the key and the
    declaration text it was built from. *)
Theorem deepseek_request_faithful (api_key java_code : str) :
  part_of java_code (Service.prompt java_code)
  /\ forall api_key' java_code',
       Service.deepseek_request api_key java_code
       = Service.deepseek_request api_key' java_code' ->
       api_key = api_key' /\ java_code = java_code'.
Proof.
  split.
  - exists (Service.prompt_head ++ [LF]), ([LF] ++ Service.prompt_tail).
    unfold Service.prompt. now rewrite <- app_assoc.
  - intros api_key' java_code' E.
    unfold Service.deepseek_request, Service.auth_headers in E.
    injection E as Ep Ek. split; [exact Ek|].
    now apply app_inv_tail in Ep.
Qed.

(** The loop on a world where every request is answered and nobody
    interrupts. *)
Lemma generate_completes (w : world) (nodes : list decl) :
  (forall k src, exists text, service w k src = Reply text) ->
  (forall k, sigint w k = false) ->
  forall k calls g,
    exists g', generate isalnum w k calls g nodes
               = (map Request (filter (acceptedb isalnum) nodes),
                  Completed g').
Proof.
  intros Hserv Hsig. induction nodes as [|d nodes IH]; intros k calls g;
    cbn [generate filter]; [eauto|].
  rewrite Hsig. unfold acceptedb at 1.
  destruct (has_doc d); [apply IH|]. cbn [negb andb].
  destruct (Nat.ltb_spec 2048 (count_tokens isalnum (method_source d))).
  { destruct (Nat.leb_spec (count_tokens isalnum (method_source d)) 2048);
      [lia|]. apply IH. }
  destruct (Nat.leb_spec (count_tokens isalnum (method_source d)) 2048);
    [|lia].
  destruct (Hserv calls (method_source d)) as [text ->].
  destruct (IH (S k) (S calls)
              (dict_set g (method_source d)
                 (insert_doc_comment (method_source d)
                    (extract_doc_comment (reassemble text)))))
    as [g' ->].
  eauto.
Qed.

(** X24. When the input file is read and the scan returns, the transport
    answers every request of [call_deepseek] with a status that
    [raise_for_status] lets pass, nobody interrupts, and the output file can
    be written, the run ends normally: one request for each accepted
    declaration, in scan order, then the write of the text rebuilt from the
    dictionary of the loop, and the formatting of the output file. *)
Theorem run_completes (args : arguments) (w : world)
    (post : nat -> Service.request -> Service.post_result)
    (java_code : str) (nodes : list decl) :
  files w (file args) = Some java_code ->
  get_method_nodes (python w) java_code (parse java_code) = Some nodes ->
  (forall k src,
      service w k src = Service.call_deepseek (post k) (api_key args) src) ->
  (forall k req, exists status_code text,
      post k req = Service.Response status_code text
      /\ ((status_code < 400)%Z \/ (600 <= status_code)%Z)) ->
  (forall k, sigint w k = false) ->
  writable w (output_file args) = true ->
  exists generated,
    generate isalnum w 0 0 [] nodes
    = (map Request (filter (acceptedb isalnum) nodes), Completed generated)
    /\ main isalnum parse args w
       = Run (map Request (filter (acceptedb isalnum) nodes)
              ++ [Write (output_file args) (write_back java_code generated);
                  Format (output_file args)])
             Finished.
Proof.
  intros Hf Hn Hserv Hpost Hsig Hw.
  destruct (generate_completes w nodes) with (k := 0) (calls := 0)
    (g := @nil (str * str)) as [g' Hg]; [|assumption|].
  - intros k src. rewrite Hserv. unfold Service.call_deepseek.
    destruct (Hpost k (Service.deepseek_request (api_key args) src))
      as (code & text & -> & Hcode).
    exists text. unfold Service.raises_for_status.
    destruct (Z.leb_spec 400 code), (Z.ltb_spec code 600);
      try reflexivity; lia.
  - exists g'. split; [exact Hg|].
    rewrite (main_after_scan isalnum parse _ _ _ _ _ _ Hf Hn Hg).
    now rewrite Hw.
Qed.

(** X25. [format.py] runs vim at most once, and only when vim is on the
    path and the argument is a regular file; it ends with status zero
    exactly when, in addition, the command could be started and returned
    zero.  The formatting step of [jenjoy.py] returns normally whatever the
    command does. *)
Theorem format_main_status (h : FormatPy.host) (file : str) :
  (exit_status (FormatPy.format_outcome (FormatPy.main h file)) = 0%Z
   <-> FormatPy.vim_on_path h = true /\ FormatPy.isfile h file = true
       /\ FormatPy.run_command h (FormatPy.vim_command file)
          = FormatPy.VimExited 0)
  /\ (FormatPy.commands (FormatPy.main h file) = [FormatPy.vim_command file]
      <-> FormatPy.vim_on_path h = true /\ FormatPy.isfile h file = true)
  /\ (FormatPy.commands (FormatPy.main h file) = []
      <-> FormatPy.vim_on_path h = false \/ FormatPy.isfile h file = false)
  /\ FormatPy.format_outcome (FormatPy.jenjoy_format_with_vim h file)
     = Finished.
Proof.
  unfold FormatPy.main, FormatPy.format_with_vim, FormatPy.run_checked.
  destruct (FormatPy.vim_on_path h); cbn [negb].
  2:{ simpl. repeat split; try discriminate; try tauto; intuition discriminate. }
  destruct (FormatPy.isfile h file); cbn [negb].
  2:{ simpl. repeat split; try discriminate; try tauto; intuition discriminate. }
  destruct (FormatPy.run_command h (FormatPy.vim_command file))
    as [code|] eqn:Hrun.
  - destruct (Z.eqb_spec code 0) as [->|Hne]; simpl.
    + repeat split; auto; intuition discriminate.
    + repeat split; auto; try discriminate; try intuition discriminate.
      intros (_ & _ & [= E]). contradiction.
  - simpl. repeat split; auto; try discriminate; intuition discriminate.
Qed.

End ServiceAndFormatter.

(** ** The further properties on the sample inputs *)

Section MoreExamples.
Import Samples.

Lemma find_first_at (s sub : str) (i : nat) :
  find s sub 0 = Z.of_nat i -> first_at sub s i.
Proof.
  intros H. change 0%Z with (Z.of_nat 0) in H.
  apply find_index in H as (_ & Ho & Hn); [|lia].
  split; [assumption|]. intros k Hk. apply Hn. lia.
Qed.

Lemma extract_doc_comment_delimited_witness :
  exists gap body head,
    extract_doc_comment chatty_reply = gap ++ lit "/**" ++ body
    /\ extract_doc_comment chatty_reply = head ++ lit "*/"
    /\ (forall c, In c gap -> is_hws c = true \/ c = LF)
    /\ (forall k, occurs (lit "*/") (extract_doc_comment chatty_reply) k ->
                  k = length head).
Proof.
  apply (extract_doc_comment_delimited chatty_reply 12 38).
  - apply rfind_index. vm_compute. reflexivity.
  - lia.
  - apply (find_first_at chatty_reply (lit "*/") 38). vm_compute. reflexivity.
Defined.

Lemma extract_doc_comment_found_witness :
  extract_doc_comment chatty_reply
  = slice chatty_reply (Z.of_nat 10) (Z.of_nat 38 + 2).
Proof.
  apply (extract_doc_comment_found chatty_reply 12 10 38).
  - apply rfind_index. vm_compute. reflexivity.
  - lia.
  - intros j c Hj Hc.
    assert (j = 10 \/ j = 11) as [->| ->] by lia;
      vm_compute in Hc; injection Hc as <-; reflexivity.
  - right. exists LF. split; [reflexivity|]. split; [reflexivity|lia].
  - lia.
  - apply (find_first_at chatty_reply (lit "*/") 38). vm_compute. reflexivity.
  - intros k Hk.
    assert (F : find chatty_reply (lit "*/") (Z.of_nat 10) = Z.of_nat 38)
      by (vm_compute; reflexivity).
    apply find_index in F as (_ & _ & Hn); [|vm_compute; lia].
    now apply Hn.
Defined.

Lemma count_tokens_delimited_witness :
  count_tokens ascii_isalnum (lit "int" ++ [SP] ++ lit "x")
  = count_tokens ascii_isalnum (lit "int") + count_tokens ascii_isalnum (lit "x")
  /\ count_tokens ascii_isalnum (lit "x" ++ [59%N] ++ lit "y")
     = count_tokens ascii_isalnum (lit "x") + 1
       + count_tokens ascii_isalnum (lit "y").
Proof.
  split.
  - apply (proj1 (count_tokens_delimited ascii_isalnum (lit "int") (lit "x"))).
    + discriminate.
    + intros c [<-|[]]. split; reflexivity.
  - apply (proj2 (count_tokens_delimited ascii_isalnum (lit "x") (lit "y")));
      reflexivity.
Defined.

Lemma get_method_nodes_preorder_witness :
  Forall2 (scanned two_java) (filter documentable (preorder two_tree))
          two_nodes.
Proof.
  apply (get_method_nodes_preorder cpython two_java two_tree two_nodes).
  vm_compute. reflexivity.
Defined.

Lemma get_method_nodes_returns_witness :
  (exists ds, get_method_nodes cpython two_java two_tree = Some ds)
  /\ get_method_nodes cpython two_java (chain 1000) = None
  /\ get_method_nodes cpython [] (done_parse []) = None.
Proof.
  destruct (get_method_nodes_returns cpython two_java two_tree)
    as (Hreturns & _ & _).
  destruct (get_method_nodes_returns cpython two_java (chain 1000))
    as (_ & Hdeep & _).
  destruct (get_method_nodes_returns cpython [] (done_parse []))
    as (_ & _ & Hrow).
  split; [|split].
  - apply Hreturns; [vm_compute; lia|].
    intros n Hn Hdoc. apply in_tree_preorder in Hn.
    change (length (splitlines two_java)) with 8.
    cbn [preorder two_tree node_children flat_map app] in Hn.
    repeat (destruct Hn as [<-|Hn]; [simpl; lia|]). destruct Hn.
  - apply Hdeep. vm_compute. lia.
  - apply Hrow.
    exists (Node (lit "class_declaration") 9 19 (1, 0)
              [ Node (lit "identifier") 15 16 (1, 6) [];
                Node (lit "class_body") 17 19 (1, 8) [] ]).
    split; [|split; [reflexivity|simpl; lia]].
    apply in_tree_below with
      (c := Node (lit "class_declaration") 9 19 (1, 0)
              [ Node (lit "identifier") 15 16 (1, 6) [];
                Node (lit "class_body") 17 19 (1, 8) [] ]);
      [simpl; auto|constructor].
Defined.

Lemma write_back_untouched_witness :
  write_back done_java [(lit "void f() {}", two_merged)] = done_java.
Proof.
  apply (write_back_untouched done_java [(lit "void f() {}", two_merged)]).
  intros original merged [[= <- <-]|[]].
  apply rfind_minus1. vm_compute. reflexivity.
Defined.


Lemma dict_set_lookup_witness :
  NoDup (map fst (dict_set [(lit "a", lit "1"); (lit "b", lit "2")]
                           (lit "a") (lit "3")))
  /\ (In (lit "a", lit "3")
         (dict_set [(lit "a", lit "1"); (lit "b", lit "2")]
                   (lit "a") (lit "3"))
      <-> lit "3" = lit "3")
  /\ map fst (dict_set [(lit "a", lit "1"); (lit "b", lit "2")]
                       (lit "a") (lit "3"))
     = [lit "a"; lit "b"].
Proof.
  destruct (dict_set_lookup [(lit "a", lit "1"); (lit "b", lit "2")]
              (lit "a") (lit "3")) as (Hnd & Hk & _ & Hold & _).
  - repeat constructor; simpl; intuition discriminate.
  - split; [exact Hnd|]. split; [apply Hk|]. apply Hold. now left.
Defined.

Lemma requests_follow_scan_order_witness :
  exists n tail,
    trace (main ascii_isalnum two_parse two_args impatient_world)
    = map Request (firstn n (filter (acceptedb ascii_isalnum) two_nodes))
      ++ tail
    /\ (forall d, ~ In (Request d) tail)
    /\ (outcome (main ascii_isalnum two_parse two_args impatient_world)
        = Finished ->
        firstn n (filter (acceptedb ascii_isalnum) two_nodes)
        = filter (acceptedb ascii_isalnum) two_nodes).
Proof.
  apply (requests_follow_scan_order ascii_isalnum two_parse two_args
           impatient_world two_java two_nodes).
  - reflexivity.
  - vm_compute. reflexivity.
Defined.

Lemma merges_have_distinct_originals_witness :
  exists evs generated,
    generate ascii_isalnum two_world 0 0 [] two_nodes
    = (evs, Completed generated)
    /\ two_output = write_back two_java generated
    /\ NoDup (map fst generated)
    /\ (forall key,
          In key (map fst generated)
          <-> exists d, In d two_nodes /\ acceptedb ascii_isalnum d = true
                        /\ method_source d = key).
Proof.
  apply (merges_have_distinct_originals ascii_isalnum two_parse two_args
           two_world two_java two_nodes) with (p := lit "Two.java").
  - reflexivity.
  - vm_compute. reflexivity.
  - rewrite two_run. simpl. auto.
Defined.

Lemma failed_request_ends_run_witness :
  main ascii_isalnum two_parse two_args failing_world
  = Run (map Request (filter (acceptedb ascii_isalnum)
                             [two_class_a; two_method_a; two_class_b])
         ++ [Request two_method_b])
        (SysExit 1).
Proof.
  apply (failed_request_ends_run ascii_isalnum two_parse two_args
           failing_world two_java
           [two_class_a; two_method_a; two_class_b] [] two_method_b).
  - reflexivity.
  - vm_compute. reflexivity.
  - intros i Hi. reflexivity.
  - intros b1 x b2 E Hx. exists (lit "data: /** first */").
    destruct b1 as [|y1 [|y2 [|y3 [|y4 b1]]]]; simpl in E;
      try discriminate; injection E as <-; subst; try discriminate Hx.
    reflexivity.
  - vm_compute. reflexivity.
  - reflexivity.
Defined.

Lemma single_declaration_documented_witness :
  main ascii_isalnum big_parse big_args big_world
  = Run [Request big_method;
         Write (output_file big_args)
               (big_pre
                ++ insert_doc_comment (method_source big_method)
                     (extract_doc_comment
                        (reassemble (lit "/** Does nothing. */")))
                ++ big_post);
         Format (output_file big_args)] Finished.
Proof.
  apply (single_declaration_documented ascii_isalnum big_parse big_args
           big_world big_java big_pre big_post (lit "/** Does nothing. */")
           [big_class] [] big_method).
  - reflexivity.
  - vm_compute. reflexivity.
  - intros x [<-|[]]. right. vm_compute. lia.
  - split; [reflexivity|]. vm_compute. lia.
  - intros k _. reflexivity.
  - reflexivity.
  - reflexivity.
  - discriminate.
  - vm_compute. reflexivity.
  - apply find_first_at. vm_compute. reflexivity.
  - apply rfind_minus1. vm_compute. reflexivity.
Defined.

Lemma reassemble_flattens_witness :
  reassemble three_line_reply = concat (splitlines three_line_reply)
  /\ forall c, In c (reassemble three_line_reply) -> is_linebreak c = false.
Proof.
  apply (reassemble_flattens three_line_reply).
  - apply rfind_minus1. vm_compute. reflexivity.
  - apply rfind_minus1. vm_compute. reflexivity.
Defined.

Lemma insert_doc_comment_unindented_witness :
  insert_doc_comment (lit "void f() {}") short_comment
  = join [LF] (splitlines short_comment) ++ [LF]
    ++ join [LF] (splitlines (lit "void f() {}")).
Proof.
  destruct (insert_doc_comment_unindented 118%N (lit "oid f() {}")
              short_comment) as [H _]; [reflexivity|exact H].
Defined.

Lemma insert_doc_comment_only_line_feeds_witness :
  In 12%N formfeed_method
  /\ ~ In 12%N (insert_doc_comment formfeed_method short_comment).
Proof.
  split; [vm_compute; tauto|].
  apply (insert_doc_comment_only_line_feeds formfeed_method short_comment
           12%N); [reflexivity|discriminate].
Defined.

Lemma run_completes_witness :
  exists generated,
    generate ascii_isalnum served_world 0 0 [] two_nodes
    = (map Request (filter (acceptedb ascii_isalnum) two_nodes),
       Completed generated)
    /\ main ascii_isalnum two_parse two_args served_world
       = Run (map Request (filter (acceptedb ascii_isalnum) two_nodes)
              ++ [Write (output_file two_args)
                        (write_back two_java generated);
                  Format (output_file two_args)])
             Finished.
Proof.
  apply (run_completes ascii_isalnum two_parse two_args served_world ok_post
           two_java two_nodes).
  - reflexivity.
  - vm_compute. reflexivity.
  - intros k src. reflexivity.
  - intros k req. exists 200%Z, (lit "/** Fine. */"). split; [reflexivity|lia].
  - intros k. reflexivity.
  - reflexivity.
Defined.

End MoreExamples.
